(** * iCalDiff: the calendar diff engine of twistedcaldav/scheduling/icaldiff.py

    A shallow embedding of class [iCalDiff] and the properties of its two
    public operations, [organizerDiff] and [attendeeMerge], together with
    the private helpers [_checkVCALENDARProperties], [_compareVTIMEZONEs],
    [_compareComponents] and [_testComponents].

    The calendar object model (twistedcaldav.ical) and the iTIP generator
    (twistedcaldav.scheduling.itip) are collaborators of the module: their
    data is modelled from the specification, their operations are either
    modelled from the specification or taken as parameters. *)

From stdpp Require Import base option list strings gmap fin_maps fin_sets.

Open Scope string_scope.

(** ** Data model *)

(** Modelled from the spec: the class Property of twistedcaldav.ical is not
    part of the sources.  A property is a name, a value and zero or more
    parameters; two properties are equal when name, value and parameters are
    (the parameters are a dictionary, so their order is immaterial). *)
Record Property : Type := mkProperty {
  pname : string;
  pvalue : string;
  pparams : gmap string (list string)
}.

#[global] Instance Property_eq_dec : EqDecision Property.
Proof. solve_decision. Defined.

#[global] Instance Property_countable : Countable Property.
Proof.
  refine (inj_countable'
            (fun p => (pname p, pvalue p, pparams p))
            (fun t => mkProperty t.1.1 t.1.2 t.2) _).
  by intros [].
Defined.

(** Modelled from the spec: the class Component of twistedcaldav.ical is not
    part of the sources.  A component has a type name, properties and nested
    components; a calendar document is the component named VCALENDAR. *)
#[warnings="-register-all"] Inductive Component : Type :=
  Comp (cname : string) (cprops : list Property) (csubs : list Component).

Definition name (c : Component) : string :=
  match c with Comp n _ _ => n end.

Definition properties (c : Component) : list Property :=
  match c with Comp _ ps _ => ps end.

Definition subcomponents (c : Component) : list Component :=
  match c with Comp _ _ cs => cs end.

(** [set(c.properties())] *)
Definition propset (c : Component) : gset Property :=
  list_to_set (properties c).

(** Modelled from the spec: Component.__eq__ is not part of the sources.
    Two components are equal iff they contain the same sets of properties
    and, recursively, structurally-equal sets of components, whatever the
    order.  (The type name is compared separately by [_testComponents].) *)
Fixpoint comp_eqb (a b : Component) {struct a} : bool :=
  match a, b with
  | Comp _ ps1 cs1, Comp _ ps2 cs2 =>
      bool_decide ((list_to_set ps1 : gset Property) = list_to_set ps2)
      && forallb (fun x => existsb (fun y => comp_eqb x y) cs2) cs1
      && forallb (fun y => existsb (fun x => comp_eqb x y) cs1) cs2
  end.

(** A Python set of components is a list read up to [comp_eqb]. *)
Definition comp_in (c : Component) (l : list Component) : bool :=
  existsb (fun y => comp_eqb c y) l.

Definition comp_in_rev (l : list Component) (c : Component) : bool :=
  existsb (fun x => comp_eqb x c) l.

(** [set(l1) ^ set(l2)] on components: the members of either list that have
    no equal in the other. *)
Definition comp_symdiff (l1 l2 : list Component) : list Component :=
  filter (fun x => comp_in x l2 = false) l1
  ++ filter (fun y => comp_in_rev l1 y = false) l2.

(** [s1 ^ s2] on properties. *)
Definition prop_symdiff (s1 s2 : gset Property) : gset Property :=
  (s1 ∖ s2) ∪ (s2 ∖ s1).

(** Modelled from the spec: Component.propertyValue is not part of the
    sources; it retrieves the value of the named property, None when the
    component has no such property. *)
Definition propertyValue (n : string) (c : Component) : option string :=
  pvalue <$> head (filter (fun p => pname p = n) (properties c)).

(** ** The component comparator *)

(** The names [_testComponents] lets drift freely (lines 195-201). *)
Definition volatile : list string :=
  ["TRANSP"; "DTSTAMP"; "CREATED"; "LAST-MODIFIED"; "SEQUENCE"].

(** The loop [for prop in tuple(propdiff)] of [_testComponents]: [todo] is
    what is left of the snapshot, [propdiff] the set the loop removes from.
    [None] is the early [return False, False] of line 206. *)
Fixpoint test_loop (attendee : string) (todo : list Property)
    (propdiff : gset Property) : option (gset Property) :=
  match todo with
  | [] => Some propdiff
  | prop :: rest =>
      if bool_decide (pname prop ∈ volatile) then
        test_loop attendee rest (propdiff ∖ {[prop]})
      else if bool_decide (pname prop ≠ "ATTENDEE" ∨ pvalue prop ≠ attendee)
      then None
      else test_loop attendee rest propdiff
  end.

Definition _testComponents (attendee : string) (comp1 comp2 : Component)
    : bool * bool :=
  if bool_decide (name comp1 ≠ name comp2) then (false, false)
  else
    let propdiff := prop_symdiff (propset comp1) (propset comp2) in
    match test_loop attendee (elements propdiff) propdiff with
    | None => (false, false)
    | Some propdiff =>
        match comp_symdiff (subcomponents comp1) (subcomponents comp2) with
        | _ :: _ => (false, false)
        | [] => (true, bool_decide (size propdiff = 0))
        end
    end.

(** ** The document-level comparators *)

Definition ignored : list string := ["PRODID"; "CALSCALE"].

Definition _checkVCALENDARProperties (calendar1 calendar2 : Component) : bool :=
  let propdiff := prop_symdiff (propset calendar1) (propset calendar2) in
  let propdiff : gset Property :=
    list_to_set (filter (fun prop => pname prop ∉ ignored) (elements propdiff)) in
  bool_decide (size propdiff = 0).

Definition extractTZIDs (calendar : Component) : gset (option string) :=
  foldl (fun tzids component =>
           if bool_decide (name component = "VTIMEZONE")
           then tzids ∪ {[ propertyValue "TZID" component ]}
           else tzids)
        ∅ (subcomponents calendar).

Definition _compareVTIMEZONEs (calendar1 calendar2 : Component) : bool :=
  bool_decide (extractTZIDs calendar1 = extractTZIDs calendar2).

(** ** The component matcher *)

(** How a loop with early returns and a raising lookup can end. *)
Inductive loop_result : Type :=
  | Raised                                  (* KeyError of [map2[key]] *)
  | Returned (r : bool * bool)              (* a [return] inside the loop *)
  | Fallthrough (attendee_unchanged : bool) (* the loop ran to its end *).

Section Matcher.

(** Taken as parameters: the recurrence identifier of a component,
    normalised to UTC (Component.getRecurrenceIDUTC), and the derivation
    of an instance of the recurring master (Component.deriveInstance). *)
Context {RID : Type} `{Countable RID}.
Variable getRecurrenceIDUTC : Component → option RID.
Variable deriveInstance : Component → option RID → option Component.

Definition Key : Type := string * option string * option RID.

Definition mapComponents (calendar : Component) : gmap Key Component :=
  foldl (fun map component =>
           if bool_decide (name component = "VTIMEZONE") then map
           else <[ (name component,
                    propertyValue "UID" component,
                    getRecurrenceIDUTC component) := component ]> map)
        ∅ (subcomponents calendar).

(** Lines 160-167: the loop over [map1.iteritems()]. *)
Fixpoint matched_loop (attendee : string) (map2 : gmap Key Component)
    (items : list (Key * Component)) (attendee_unchanged : bool)
    : loop_result :=
  match items with
  | [] => Fallthrough attendee_unchanged
  | (key, component1) :: rest =>
      match map2 !! key with
      | None => Raised
      | Some component2 =>
          let '(nomismatch, no_attendee_change) :=
            _testComponents attendee component1 component2 in
          if negb nomismatch then Returned (false, false)
          else matched_loop attendee map2 rest
                 (attendee_unchanged && no_attendee_change)
      end
  end.

(** Lines 170-179: the loop over [set2 - set1]. *)
Fixpoint derived_loop (attendee : string) (calendar1 : Component)
    (map2 : gmap Key Component) (keys : list Key)
    (attendee_unchanged : bool) : loop_result :=
  match keys with
  | [] => Fallthrough attendee_unchanged
  | key :: rest =>
      match deriveInstance calendar1 key.2 with
      | None => Returned (false, false)
      | Some component1 =>
          match map2 !! key with
          | None => Raised
          | Some component2 =>
              let '(nomismatch, no_attendee_change) :=
                _testComponents attendee component1 component2 in
              if negb nomismatch then Returned (false, false)
              else derived_loop attendee calendar1 map2 rest
                     (attendee_unchanged && no_attendee_change)
          end
      end
  end.

(** [None] is an uncaught KeyError, [Some r] the pair returned. *)
Definition _compareComponents (attendee : string)
    (calendar1 calendar2 : Component) : option (bool * bool) :=
  let map1 := mapComponents calendar1 in
  let set1 : gset Key := dom map1 in
  let map2 := mapComponents calendar2 in
  let set2 : gset Key := dom map2 in
  let result := set1 ∖ set2 in
  if bool_decide (result ≠ ∅) then Some (false, false)
  else
    match matched_loop attendee map2 (map_to_list map1) true with
    | Raised => None
    | Returned r => Some r
    | Fallthrough attendee_unchanged =>
        match derived_loop attendee calendar1 map2 (elements (set2 ∖ set1))
                attendee_unchanged with
        | Raised => None
        | Returned r => Some r
        | Fallthrough attendee_unchanged => Some (true, attendee_unchanged)
        end
    end.

End Matcher.

(** ** The calendar store and the two public operations *)

(** Modelled from the spec: Component.removeAlarms is not part of the
    sources; it removes all alarm subcomponents, at every nesting level. *)
Fixpoint removeAlarms (c : Component) : Component :=
  match c with
  | Comp n ps cs =>
      Comp n ps
        ((fix strip (l : list Component) : list Component :=
            match l with
            | [] => []
            | s :: rest =>
                if bool_decide (name s = "VALARM") then strip rest
                else removeAlarms s :: strip rest
            end) cs)
  end.

(** What [removeAlarms] does to a list of subcomponents. *)
Definition strip_alarms (l : list Component) : list Component :=
  flat_map (fun s => if bool_decide (name s = "VALARM") then []
                     else [removeAlarms s]) l.

(** Calendar documents are Python objects: the store maps the address of a
    document to its current content, and an operation of the object model
    that works in place replaces the content at an address. *)
Definition loc : Type := positive.

(** The fields of an [iCalDiff] object. *)
Record iCalDiff : Type := mkDiff {
  calendar1 : loc;
  calendar2 : loc;
  attendee : option string
}.

Record world : Type := mkWorld {
  heap : gmap loc Component;
  self : iCalDiff
}.

(** A computation reads and writes the world; [None] is an uncaught
    exception. *)
Definition M (A : Type) : Type := world → option (A * world).

Definition ret {A} (a : A) : M A := fun w => Some (a, w).

Definition bind {A B} (m : M A) (k : A → M B) : M B :=
  fun w => match m w with
           | Some (a, w') => k a w'
           | None => None
           end.

Notation "'let*' x ':=' m 'in' k" := (bind m (fun x => k))
  (at level 10, x name, m at level 100, k at level 200).
Notation "m ';;;' k" := (bind m (fun _ => k))
  (at level 100, k at level 200, right associativity).

Definition get_calendar1 : M loc := fun w => Some (calendar1 (self w), w).
Definition get_calendar2 : M loc := fun w => Some (calendar2 (self w), w).

Definition set_calendar1 (r : loc) : M unit := fun w =>
  Some (tt, mkWorld (heap w) (mkDiff r (calendar2 (self w)) (attendee (self w)))).
Definition set_calendar2 (r : loc) : M unit := fun w =>
  Some (tt, mkWorld (heap w) (mkDiff (calendar1 (self w)) r (attendee (self w)))).
Definition set_attendee (a : string) : M unit := fun w =>
  Some (tt, mkWorld (heap w) (mkDiff (calendar1 (self w)) (calendar2 (self w)) (Some a))).

(** The content of the document at an address. *)
Definition read (r : loc) : M Component := fun w =>
  match heap w !! r with
  | Some c => Some (c, w)
  | None => None
  end.

(** Modelled from the spec: Component.duplicate is not part of the sources;
    it creates an independent deep copy.  [r.duplicate()] is a new document,
    at an address not in use, with the content of the one at [r]. *)
Definition duplicate (r : loc) : M loc := fun w =>
  match heap w !! r with
  | Some c =>
      let r' := fresh (dom (heap w)) in
      Some (r', mkWorld (<[ r' := c ]> (heap w)) (self w))
  | None => None
  end.

(** Modelled from the spec: the operations of the object model that work
    in place (removeAlarms, removeXProperties, attendeesView) and
    prepareSchedulingMessage change the document they are given and no
    other; [f] is what the operation does to the content of the document
    at [r]. *)
Definition in_place (f : Component → Component) (r : loc) : M unit := fun w =>
  match heap w !! r with
  | Some c => Some (tt, mkWorld (<[ r := f c ]> (heap w)) (self w))
  | None => None
  end.

Definition lift_exn {A} (o : option A) : M A := fun w =>
  match o with
  | Some a => Some (a, w)
  | None => None
  end.

Definition organizerDiff : M bool :=
  let* c := get_calendar1 in
  let* d := duplicate c in
  set_calendar1 d ;;;
  let* c := get_calendar1 in
  in_place removeAlarms c ;;;
  let* c := get_calendar2 in
  let* d := duplicate c in
  set_calendar2 d ;;;
  let* c := get_calendar2 in
  in_place removeAlarms c ;;;
  let* c1 := get_calendar1 in
  let* v1 := read c1 in
  let* c2 := get_calendar2 in
  let* v2 := read c2 in
  ret (comp_eqb v1 v2).

Section Merge.

Context {RID : Type} `{Countable RID}.
Variable getRecurrenceIDUTC : Component → option RID.
Variable deriveInstance : Component → option RID → option Component.

(** Taken as parameters, each by what it does to the content of the
    document it changes in place: Component.removeXProperties,
    Component.attendeesView and iTipGenerator.prepareSchedulingMessage. *)
Variable removeXProperties : Component → Component.
Variable attendeesView : list string → Component → Component.
Variable prepareSchedulingMessage : Component → Component.

Definition attendeeMerge (attendee : string) : M (bool * bool) :=
  set_attendee attendee ;;;
  let* c := get_calendar1 in
  let* d := duplicate c in
  set_calendar1 d ;;;
  let* c := get_calendar1 in
  in_place removeXProperties c ;;;
  let* c := get_calendar1 in
  in_place (attendeesView [attendee]) c ;;;
  let* c := get_calendar1 in
  in_place prepareSchedulingMessage c ;;;
  let* c := get_calendar2 in
  let* d := duplicate c in
  set_calendar2 d ;;;
  let* c := get_calendar2 in
  in_place removeXProperties c ;;;
  let* c := get_calendar2 in
  in_place prepareSchedulingMessage c ;;;
  let* c1 := get_calendar1 in
  let* v1 := read c1 in
  let* c2 := get_calendar2 in
  let* v2 := read c2 in
  if comp_eqb v1 v2 then ret (true, true)
  else if negb (_checkVCALENDARProperties v1 v2) then ret (false, false)
  else if negb (_compareVTIMEZONEs v1 v2) then ret (false, false)
  else lift_exn (_compareComponents getRecurrenceIDUTC deriveInstance
                   attendee v1 v2).

(** The working copies [attendeeMerge] compares, as contents. *)
Definition normalized1 (attendee : string) (d : Component) : Component :=
  prepareSchedulingMessage (attendeesView [attendee] (removeXProperties d)).

Definition normalized2 (d : Component) : Component :=
  prepareSchedulingMessage (removeXProperties d).

(** What [attendeeMerge] computes from the two working copies. *)
Definition merge_result (attendee : string) (v1 v2 : Component)
    : option (bool * bool) :=
  if comp_eqb v1 v2 then Some (true, true)
  else if negb (_checkVCALENDARProperties v1 v2) then Some (false, false)
  else if negb (_compareVTIMEZONEs v1 v2) then Some (false, false)
  else _compareComponents getRecurrenceIDUTC deriveInstance attendee v1 v2.

End Merge.

(** ** A concrete object model, for running the operations *)

(** Recurrence identifiers as the UTC date-time string of RECURRENCE-ID. *)
Definition ex_getRecurrenceIDUTC (c : Component) : option string :=
  propertyValue "RECURRENCE-ID" c.

(** The instance of the first component without a RECURRENCE-ID (the
    master) at the given identifier; none without an identifier or a
    master. *)
Definition ex_deriveInstance (calendar : Component) (rid : option string)
    : option Component :=
  match rid with
  | None => None
  | Some r =>
      match filter (fun c => name c ≠ "VTIMEZONE"
                             ∧ propertyValue "RECURRENCE-ID" c = None)
                   (subcomponents calendar) with
      | Comp n ps cs :: _ => Some (Comp n (mkProperty "RECURRENCE-ID" r ∅ :: ps) cs)
      | [] => None
      end
  end.

Definition is_x_name (n : string) : bool :=
  bool_decide (String.substring 0 2 n = "X-").

Definition drop_props (keep : Property → bool) (c : Component) : Component :=
  match c with
  | Comp n ps cs => Comp n (List.filter keep ps) cs
  end.

Definition ex_removeXProperties (c : Component) : Component :=
  match drop_props (fun p => negb (is_x_name (pname p))) c with
  | Comp n ps cs =>
      Comp n ps (map (drop_props (fun p => negb (is_x_name (pname p)))) cs)
  end.

Definition ex_attendeesView (attendees : list string) (c : Component)
    : Component :=
  match c with
  | Comp n ps cs =>
      Comp n ps
        (map (drop_props (fun p =>
                bool_decide (pname p = "ATTENDEE" → pvalue p ∈ attendees))) cs)
  end.

Definition ex_prepareSchedulingMessage (c : Component) : Component :=
  removeAlarms c.

Definition ex_attendeeMerge (attendee : string) : M (bool * bool) :=
  attendeeMerge ex_getRecurrenceIDUTC ex_deriveInstance ex_removeXProperties
    ex_attendeesView ex_prepareSchedulingMessage attendee.

Definition prop (n v : string) : Property := mkProperty n v ∅.

Definition partstat (v : string) : gmap string (list string) :=
  {[ "PARTSTAT" := [v] ]}.

Definition user1 : string := "mailto:user1@example.com".
Definition user2 : string := "mailto:user2@example.com".

Definition ex_event (status location : string) : Component :=
  Comp "VEVENT"
    [prop "UID" "1"; prop "DTSTART" "20080601T120000Z";
     prop "LOCATION" location;
     prop "ORGANIZER" "mailto:organizer@example.com";
     mkProperty "ATTENDEE" user1 (partstat status)] [].

Definition ex_alarm : Component :=
  Comp "VALARM" [prop "ACTION" "DISPLAY"; prop "TRIGGER" "-PT15M"] [].

Definition ex_calendar (events : list Component) : Component :=
  Comp "VCALENDAR" [prop "VERSION" "2.0"; prop "PRODID" "-//Example//EN"] events.

Definition ex_master : Component :=
  Comp "VEVENT"
    [prop "UID" "1"; prop "DTSTART" "20080601T120000Z";
     prop "RRULE" "FREQ=DAILY";
     mkProperty "ATTENDEE" user1 (partstat "NEEDS-ACTION")] [].

(** An instance of [ex_master], overridden with the attendee's answer. *)
Definition ex_override (rid status : string) : Component :=
  Comp "VEVENT"
    [prop "RECURRENCE-ID" rid;
     prop "UID" "1"; prop "DTSTART" "20080601T120000Z";
     prop "RRULE" "FREQ=DAILY";
     mkProperty "ATTENDEE" user1 (partstat status)] [].

Definition ex_todo : Component :=
  Comp "VTODO" [prop "UID" "2"; prop "SUMMARY" "Report"] [].

(** Two documents at addresses 1 and 2, and a differ on them. *)
Definition ex_world (d1 d2 : Component) : world :=
  mkWorld {[ 1%positive := d1; 2%positive := d2 ]}
          (mkDiff 1%positive 2%positive None).

Definition result_of {A} (o : option (A * world)) : option A :=
  fst <$> o.

(** ** Vocabulary of the statements *)

(** The property differences of two components that are left once the
    volatile names are discarded. *)
Definition remaining_diff (c1 c2 : Component) : gset Property :=
  filter (fun p => pname p ∉ volatile)
         (prop_symdiff (propset c1) (propset c2)).

(** The one difference an attendee may make: their own ATTENDEE property. *)
Definition permitted (attendee : string) (p : Property) : Prop :=
  pname p = "ATTENDEE" ∧ pvalue p = attendee.

(** Equal subcomponent sets: [set(c1.subcomponents()) ^
    set(c2.subcomponents())] is empty. *)
Definition same_subcomponents (c1 c2 : Component) : Prop :=
  comp_symdiff (subcomponents c1) (subcomponents c2) = [].

(** Modelled from the spec: adding a property to a component and removing
    one from it (Component.addProperty and Component.removeProperty of the
    object model, which is not part of the sources). *)
Definition addProperty (p : Property) (c : Component) : Component :=
  match c with
  | Comp n ps cs => Comp n (ps ++ [p]) cs
  end.

Definition removeProperty (p : Property) (c : Component) : Component :=
  match c with
  | Comp n ps cs => Comp n (filter (fun q => q ≠ p) ps) cs
  end.

(** [b] is [a] with one more VALARM component, at some nesting level. *)
Inductive alarm_added : Component → Component → Prop :=
  | alarm_here n ps pre a post :
      name a = "VALARM" →
      alarm_added (Comp n ps (pre ++ post)%list)
                  (Comp n ps (pre ++ a :: post)%list)
  | alarm_inside n ps pre c c' post :
      alarm_added c c' →
      alarm_added (Comp n ps (pre ++ c :: post)%list)
                  (Comp n ps (pre ++ c' :: post)%list).

(** The store after [duplicate] has copied the document [d] and the
    receiver has been changed in place into [f d]. *)
Definition with_copy (h : gmap loc Component) (v : Component)
    : gmap loc Component :=
  <[ fresh (dom h) := v ]> h.

(** A pair of components in which nothing but volatile properties differs. *)
Definition unchanged_pair (c1 c2 : Component) : Prop :=
  name c1 = name c2 ∧ remaining_diff c1 c2 = ∅ ∧ same_subcomponents c1 c2.

Section MatcherVocabulary.

Context {RID : Type} `{Countable RID}.
Variable getRecurrenceIDUTC : Component → option RID.
Variable deriveInstance : Component → option RID → option Component.

(** Every key of document A is a key of document B. *)
Definition keys_subset (calendar1 calendar2 : Component) : Prop :=
  dom (mapComponents getRecurrenceIDUTC calendar1)
  ⊆ dom (mapComponents getRecurrenceIDUTC calendar2).

(** Every key of document B alone has an instance derived from A. *)
Definition derivable (calendar1 calendar2 : Component) : Prop :=
  ∀ key : @Key RID,
    key ∈ dom (mapComponents getRecurrenceIDUTC calendar2) →
    key ∉ dom (mapComponents getRecurrenceIDUTC calendar1) →
    is_Some (deriveInstance calendar1 key.2).

(** The pairs the matcher hands to [_testComponents]: [c2] is B's component
    at [key]; [c1] is A's component at [key] or, when A has none, the
    instance derived from A at the recurrence identifier of [key]. *)
Definition compared (calendar1 calendar2 : Component) (key : @Key RID)
    (c1 c2 : Component) : Prop :=
  mapComponents getRecurrenceIDUTC calendar2 !! key = Some c2
  ∧ (mapComponents getRecurrenceIDUTC calendar1 !! key = Some c1
     ∨ (mapComponents getRecurrenceIDUTC calendar1 !! key = None
        ∧ deriveInstance calendar1 key.2 = Some c1)).

(** Nothing of substance changed between two working copies: they are
    equal, or the document-level checks pass and every pair the matcher
    compares is an unchanged pair. *)
Definition no_substantive_change (v1 v2 : Component) : Prop :=
  comp_eqb v1 v2 = true
  ∨ (_checkVCALENDARProperties v1 v2 = true
     ∧ _compareVTIMEZONEs v1 v2 = true
     ∧ keys_subset v1 v2
     ∧ derivable v1 v2
     ∧ ∀ key c1 c2, compared v1 v2 key c1 c2 → unchanged_pair c1 c2).

End MatcherVocabulary.

(** The timezone identifiers of a document: [t] is the TZID of one of its
    VTIMEZONE components ([None] for a VTIMEZONE without TZID). *)
Definition has_tzid (calendar : Component) (t : option string) : Prop :=
  ∃ c, c ∈ subcomponents calendar
       ∧ name c = "VTIMEZONE" ∧ propertyValue "TZID" c = t.

Section MatcherKeys.

Context {RID : Type} `{Countable RID}.
Variable getRecurrenceIDUTC : Component → option RID.
Variable deriveInstance : Component → option RID → option Component.

(** The key [mapComponents] files a component under. *)
Definition component_key (c : Component) : @Key RID :=
  (name c, propertyValue "UID" c, getRecurrenceIDUTC c).

(** The change between two working copies is one [attendeeMerge] accepts:
    they are equal, or the document-level checks pass, every key of A is a
    key of B, every key of B alone has a derived instance and every pair
    compared passes [_testComponents]. *)
Definition acceptable_change (attendee : string) (v1 v2 : Component) : Prop :=
  comp_eqb v1 v2 = true
  ∨ (_checkVCALENDARProperties v1 v2 = true
     ∧ _compareVTIMEZONEs v1 v2 = true
     ∧ keys_subset getRecurrenceIDUTC v1 v2
     ∧ derivable getRecurrenceIDUTC deriveInstance v1 v2
     ∧ ∀ key c1 c2,
         compared getRecurrenceIDUTC deriveInstance v1 v2 key c1 c2 →
         fst (_testComponents attendee c1 c2) = true).

End MatcherKeys.

Definition ex_timezone (tzid rule : string) : Component :=
  Comp "VTIMEZONE" [prop "TZID" tzid]
    [Comp "STANDARD" [prop "RRULE" rule; prop "TZOFFSETTO" "-0500"] []].

(** Closed decidable facts about concrete documents, by evaluation. *)
Ltac by_evaluation :=
  match goal with
  | |- ?P => apply (bool_decide_eq_true_1 P); vm_compute; reflexivity
  end.

(** Nothing is a member of the empty list. *)
Ltac absurd_nil :=
  match goal with
  | H : _ ∈ [] |- _ => by apply elem_of_nil in H
  end.

(** ** The component comparator: properties *)

Lemma test_loop_None attendee todo D :
  test_loop attendee todo D = None ↔
  (Exists (fun p => (pname p ∉ volatile) ∧ ¬ permitted attendee p) todo).
Proof.
  revert D. induction todo as [|p rest IH]; intros D; simpl.
  - split; [done | by intros ?%Exists_nil].
  - rewrite Exists_cons. unfold permitted in *.
    repeat case_bool_decide.
    + rewrite IH. tauto.
    + split; [intros _; left; split; [done | tauto] | done].
    + rewrite IH. split; [tauto |].
      intros [[_ Hn] | ?]; [| done].
      destruct Hn. split; destruct (decide (pname p = "ATTENDEE"));
        destruct (decide (pvalue p = attendee)); tauto.
Qed.

Lemma test_loop_Some attendee todo D D' :
  test_loop attendee todo D = Some D' →
  ∀ x, x ∈ D' ↔ x ∈ D ∧ ¬ (x ∈ todo ∧ pname x ∈ volatile).
Proof.
  revert D. induction todo as [|p rest IH]; intros D; simpl.
  - intros [= <-] x. rewrite elem_of_nil. tauto.
  - repeat case_bool_decide; try done.
    + intros Hl x. rewrite (IH _ Hl x), elem_of_cons.
      rewrite elem_of_difference, elem_of_singleton.
      split.
      * intros [[? Hne] Hr]. split; [done |].
        intros [[-> | ?] ?]; tauto.
      * intros [? Hr]. split; [split; [done |] |].
        -- intros ->. tauto.
        -- tauto.
    + intros Hl x. rewrite (IH _ Hl x), elem_of_cons.
      split; [| tauto].
      intros [? Hr]. split; [done |].
      intros [[-> | ?] ?]; tauto.
Qed.

Lemma elem_of_remaining_diff c1 c2 p :
  p ∈ remaining_diff c1 c2 ↔
  ((pname p ∉ volatile) ∧ (p ∈ properties c1 ↔ p ∉ properties c2)).
Proof.
  unfold remaining_diff, prop_symdiff, propset.
  rewrite elem_of_filter, elem_of_union, !elem_of_difference,
    !elem_of_list_to_set.
  destruct (decide (p ∈ properties c1)), (decide (p ∈ properties c2)); tauto.
Qed.

(** What [_testComponents] computes, in one equation. *)
Lemma testComponents_spec attendee c1 c2 :
  _testComponents attendee c1 c2 =
  if decide (name c1 = name c2
             ∧ set_Forall (permitted attendee) (remaining_diff c1 c2)
             ∧ same_subcomponents c1 c2)
  then (true, bool_decide (remaining_diff c1 c2 = ∅))
  else (false, false).
Proof.
  unfold _testComponents, same_subcomponents.
  set (D := prop_symdiff (propset c1) (propset c2)).
  assert (HD : ∀ p, p ∈ remaining_diff c1 c2 ↔ p ∈ D ∧ pname p ∉ volatile).
  { intros p. unfold remaining_diff. fold D. rewrite elem_of_filter. tauto. }
  case_bool_decide as Hn.
  { rewrite decide_False; [done | tauto]. }
  destruct (test_loop attendee (elements D) D) as [D'|] eqn:Hl.
  - pose proof (test_loop_Some _ _ _ _ Hl) as HD'.
    assert (Hperm : set_Forall (permitted attendee) (remaining_diff c1 c2)).
    { intros p [Hp Hv]%HD.
      destruct (decide (permitted attendee p)) as [|Hnp]; [done |].
      assert (test_loop attendee (elements D) D = None); [| congruence].
      apply test_loop_None, Exists_exists. exists p.
      by rewrite elem_of_elements. }
    assert (HDD : D' = remaining_diff c1 c2).
    { apply set_eq. intros p. rewrite HD', HD, elem_of_elements. tauto. }
    destruct (comp_symdiff _ _) eqn:Hs.
    + rewrite decide_True by done. f_equal.
      rewrite HDD. apply bool_decide_ext.
      by rewrite size_empty_iff, leibniz_equiv_iff.
    + rewrite decide_False; [done | intros (_ & _ & ?); done].
  - rewrite decide_False; [done |].
    intros (_ & Hperm & _).
    apply test_loop_None, Exists_exists in Hl as (p & Hp & Hv & Hnp).
    apply Hnp, Hperm, HD. by rewrite <- elem_of_elements.
Qed.

(** Induction on components, through the list of subcomponents. *)
Lemma Component_nested_ind (P : Component → Prop) :
  (∀ n ps cs, Forall P cs → P (Comp n ps cs)) → ∀ c, P c.
Proof.
  intros HP. fix IH 1. intros [n ps cs]. apply HP.
  revert cs. fix IHcs 1. intros [|c cs].
  - constructor.
  - constructor; [apply IH | apply IHcs].
Qed.

Lemma comp_eqb_refl c : comp_eqb c c = true.
Proof.
  induction c as [n ps cs IH] using Component_nested_ind. simpl.
  rewrite Forall_forall in IH.
  rewrite bool_decide_eq_true_2 by done. simpl.
  apply andb_true_iff; split; apply forallb_forall; intros x Hx;
    apply existsb_exists; exists x; (split; [done |]);
    apply IH; by apply list_elem_of_In.
Qed.

Lemma comp_symdiff_refl l : comp_symdiff l l = [].
Proof.
  unfold comp_symdiff.
  assert (Hin : ∀ x, x ∈ l → comp_in x l = true ∧ comp_in_rev l x = true).
  { intros x Hx%list_elem_of_In. unfold comp_in, comp_in_rev.
    split; apply existsb_exists; exists x; auto using comp_eqb_refl. }
  assert (Hnil : ∀ (f : Component → bool) (k : list Component),
             (∀ x, x ∈ k → f x = true) → filter (fun x => f x = false) k = []).
  { intros f k. induction k as [|a k IHk]; intros Hk; [done |].
    rewrite filter_cons_False.
    - apply IHk. intros x Hx. apply Hk. by right.
    - rewrite Hk; [done | by left]. }
  rewrite !Hnil; [done | |]; intros x Hx; by apply Hin.
Qed.

Lemma same_subcomponents_refl n1 ps1 n2 ps2 cs :
  same_subcomponents (Comp n1 ps1 cs) (Comp n2 ps2 cs).
Proof. apply comp_symdiff_refl. Qed.

(** C1. For two components with the same type name and equal subcomponent
    sets: when the property differences left after discarding the volatile
    names are all the ATTENDEE property of the tested attendee (and there is
    one), [_testComponents] returns (true, false); when one of them is
    anything else (a property not named ATTENDEE, or an ATTENDEE of another
    value), it returns (false, false), whatever permitted difference there
    is besides. *)
Theorem testComponents_attendee_exclusive attendee c1 c2 :
  name c1 = name c2 →
  same_subcomponents c1 c2 →
  (remaining_diff c1 c2 ≠ ∅ →
   (∀ p, p ∈ remaining_diff c1 c2 → permitted attendee p) →
   _testComponents attendee c1 c2 = (true, false))
  ∧ ((∃ p, p ∈ remaining_diff c1 c2 ∧ ¬ permitted attendee p) →
     _testComponents attendee c1 c2 = (false, false)).
Proof.
  intros Hname Hsubs. rewrite testComponents_spec. split.
  - intros Hne Hall. rewrite decide_True by done.
    by rewrite bool_decide_eq_false_2.
  - intros (p & Hp & Hnp). rewrite decide_False; [done |].
    intros (_ & Hall & _). by apply Hnp, Hall.
Qed.

Lemma testComponents_attendee_exclusive_witness :
  _testComponents user1 (ex_event "NEEDS-ACTION" "Office")
                        (ex_event "ACCEPTED" "Office") = (true, false)
  ∧ _testComponents user1 (ex_event "NEEDS-ACTION" "Office")
                          (ex_event "ACCEPTED" "Home") = (false, false).
Proof.
  split.
  - refine (proj1 (testComponents_attendee_exclusive user1
              (ex_event "NEEDS-ACTION" "Office") (ex_event "ACCEPTED" "Office")
              eq_refl eq_refl) _ _).
    + intros He.
      assert (Hin : mkProperty "ATTENDEE" user1 (partstat "ACCEPTED")
                    ∈ remaining_diff (ex_event "NEEDS-ACTION" "Office")
                                     (ex_event "ACCEPTED" "Office")).
      { by_evaluation. }
      rewrite He in Hin. by apply not_elem_of_empty in Hin.
    + change (set_Forall (permitted user1)
                (remaining_diff (ex_event "NEEDS-ACTION" "Office")
                                (ex_event "ACCEPTED" "Office"))).
      by_evaluation.
  - refine (proj2 (testComponents_attendee_exclusive user1
              (ex_event "NEEDS-ACTION" "Office") (ex_event "ACCEPTED" "Home")
              eq_refl eq_refl) _).
    exists (prop "LOCATION" "Home"). split.
    + by_evaluation.
    + intros [Hn _]. discriminate Hn.
Defined.

(** [_testComponents] reads of a component its type name, its subcomponents
    and the properties whose name is not volatile. *)
Lemma testComponents_ext attendee c1 c1' c2 c2' :
  name c1 = name c1' → name c2 = name c2' →
  subcomponents c1 = subcomponents c1' →
  subcomponents c2 = subcomponents c2' →
  (∀ q, pname q ∉ volatile → q ∈ properties c1 ↔ q ∈ properties c1') →
  (∀ q, pname q ∉ volatile → q ∈ properties c2 ↔ q ∈ properties c2') →
  _testComponents attendee c1 c2 = _testComponents attendee c1' c2'.
Proof.
  intros Hn1 Hn2 Hs1 Hs2 Hp1 Hp2. rewrite !testComponents_spec.
  assert (Hd : remaining_diff c1 c2 = remaining_diff c1' c2').
  { apply set_eq. intros q. rewrite !elem_of_remaining_diff.
    split; intros [Hv Hq]; (split; [done |]);
      specialize (Hp1 q Hv); specialize (Hp2 q Hv); tauto. }
  unfold same_subcomponents. rewrite Hd, Hn1, Hn2, Hs1, Hs2.
  by repeat case_decide.
Qed.

Lemma addProperty_volatile p c :
  pname p ∈ volatile →
  name (addProperty p c) = name c
  ∧ subcomponents (addProperty p c) = subcomponents c
  ∧ ∀ q, pname q ∉ volatile →
         q ∈ properties (addProperty p c) ↔ q ∈ properties c.
Proof.
  intros Hv. destruct c as [n ps cs]; simpl. repeat split.
  - rewrite elem_of_app, list_elem_of_singleton.
    intros [? | ->]; [done | contradiction].
  - intros ?. apply elem_of_app. by left.
Qed.

Lemma removeProperty_volatile p c :
  pname p ∈ volatile →
  name (removeProperty p c) = name c
  ∧ subcomponents (removeProperty p c) = subcomponents c
  ∧ ∀ q, pname q ∉ volatile →
         q ∈ properties (removeProperty p c) ↔ q ∈ properties c.
Proof.
  intros Hv. destruct c as [n ps cs]; simpl. repeat split.
  - by intros [_ ?]%list_elem_of_filter.
  - intros ?. apply list_elem_of_filter. split; [| done].
    intros ->. contradiction.
Qed.

(** C6. Adding a property with a volatile name (TRANSP, DTSTAMP, CREATED,
    LAST-MODIFIED, SEQUENCE) to either component, or removing it from
    either, leaves both booleans of [_testComponents] unchanged. *)
Theorem testComponents_volatile_invariant attendee p c1 c2 :
  pname p ∈ volatile →
  _testComponents attendee (addProperty p c1) c2
    = _testComponents attendee c1 c2
  ∧ _testComponents attendee c1 (addProperty p c2)
    = _testComponents attendee c1 c2
  ∧ _testComponents attendee (removeProperty p c1) c2
    = _testComponents attendee c1 c2
  ∧ _testComponents attendee c1 (removeProperty p c2)
    = _testComponents attendee c1 c2.
Proof.
  intros Hv.
  destruct (addProperty_volatile p c1 Hv) as (? & ? & ?).
  destruct (addProperty_volatile p c2 Hv) as (? & ? & ?).
  destruct (removeProperty_volatile p c1 Hv) as (? & ? & ?).
  destruct (removeProperty_volatile p c2 Hv) as (? & ? & ?).
  repeat split; by apply testComponents_ext.
Qed.

Lemma testComponents_volatile_invariant_witness :
  let p := prop "SEQUENCE" "2" in
  let c1 := ex_event "NEEDS-ACTION" "Office" in
  let c2 := ex_event "ACCEPTED" "Office" in
  pname p ∈ volatile
  ∧ _testComponents user1 (addProperty p c1) c2 = (true, false)
  ∧ _testComponents user1 c1 (removeProperty p (addProperty p c2))
    = (true, false).
Proof.
  intros p c1 c2.
  assert (Hv : pname p ∈ volatile) by by_evaluation.
  split; [exact Hv |]. split.
  - rewrite (proj1 (testComponents_volatile_invariant user1 p c1 c2 Hv)).
    vm_compute. reflexivity.
  - rewrite (proj2 (proj2 (proj2 (testComponents_volatile_invariant
               user1 p c1 (addProperty p c2) Hv)))).
    rewrite (proj1 (proj2 (testComponents_volatile_invariant
               user1 p c1 c2 Hv))).
    vm_compute. reflexivity.
Defined.

(** C10. The parameters of the tested attendee's own ATTENDEE property are
    never looked at: two components that differ only in them (the property
    with parameters [m1] in one, [m2] in the other, the other properties,
    the type name and the subcomponents being the same) compare as
    (true, false), whatever [m1] and [m2] are. *)
Theorem testComponents_attendee_parameters attendee n
    (pre post : list Property) cs m1 m2 :
  let p1 := mkProperty "ATTENDEE" attendee m1 in
  let p2 := mkProperty "ATTENDEE" attendee m2 in
  m1 ≠ m2 →
  p1 ∉ (pre ++ post)%list ∨ p2 ∉ (pre ++ post)%list →
  _testComponents attendee (Comp n (pre ++ p1 :: post)%list cs)
                           (Comp n (pre ++ p2 :: post)%list cs) = (true, false).
Proof.
  intros p1 p2 Hm Hfresh.
  assert (Hne : p1 ≠ p2) by (intros [= ?]; done).
  assert (Hnv : ("ATTENDEE" : string) ∉ volatile).
  { unfold volatile. rewrite !not_elem_of_cons. repeat split; try done.
    apply not_elem_of_nil. }
  assert (Hmem : ∀ q r : Property,
             q ∈ (pre ++ r :: post)%list ↔ q = r ∨ q ∈ (pre ++ post)%list).
  { intros q r. rewrite !elem_of_app, elem_of_cons. tauto. }
  rewrite testComponents_spec, decide_True.
  - rewrite bool_decide_eq_false_2; [done |].
    intros He.
    assert (Hin : p1 ∈ remaining_diff (Comp n (pre ++ p1 :: post)%list cs)
                                      (Comp n (pre ++ p2 :: post)%list cs)
                  ∨ p2 ∈ remaining_diff (Comp n (pre ++ p1 :: post)%list cs)
                                        (Comp n (pre ++ p2 :: post)%list cs)).
    { rewrite !elem_of_remaining_diff. simpl. rewrite !Hmem.
      destruct Hfresh as [Hf | Hf]; [left | right];
        (split; [exact Hnv |]); split.
      - intros _ [? | ?]; [by apply Hne | by apply Hf].
      - intros _. by left.
      - intros [? | ?]; [by destruct Hne | by destruct Hf].
      - intros Hn. destruct Hn. by left. }
    rewrite He in Hin. destruct Hin as [Hin | Hin];
      by apply not_elem_of_empty in Hin.
  - split; [done |]. split; [| apply same_subcomponents_refl].
    intros q. rewrite elem_of_remaining_diff. simpl. rewrite !Hmem.
    intros [_ Hq].
    assert (q = p1 ∨ q = p2) as [-> | ->]; [| by split..].
    destruct (decide (q ∈ (pre ++ post)%list)), (decide (q = p1)),
      (decide (q = p2)); tauto.
Qed.

Lemma testComponents_attendee_parameters_witness :
  _testComponents user1
    (Comp "VEVENT" ([prop "UID" "1"]
                    ++ mkProperty "ATTENDEE" user1 (partstat "NEEDS-ACTION")
                    :: [prop "SUMMARY" "Lunch"])%list [])
    (Comp "VEVENT" ([prop "UID" "1"]
                    ++ mkProperty "ATTENDEE" user1
                         {[ "PARTSTAT" := ["DECLINED"];
                            "DELEGATED-TO" := [user2] ]}
                    :: [prop "SUMMARY" "Lunch"])%list [])
  = (true, false).
Proof.
  apply (testComponents_attendee_parameters user1 "VEVENT"
           [prop "UID" "1"] [prop "SUMMARY" "Lunch"] []).
  - by_evaluation.
  - left. by_evaluation.
Defined.

(** ** The component matcher: properties *)

Lemma testComponents_no_false_true attendee c1 c2 :
  fst (_testComponents attendee c1 c2) = false →
  _testComponents attendee c1 c2 = (false, false).
Proof. rewrite testComponents_spec. by case_decide. Qed.

Lemma testComponents_unchanged attendee c1 c2 :
  _testComponents attendee c1 c2 = (true, true) ↔ unchanged_pair c1 c2.
Proof.
  rewrite testComponents_spec. unfold unchanged_pair. case_decide as Hd.
  - destruct Hd as (? & ? & ?). case_bool_decide as He.
    + tauto.
    + split; [done | tauto].
  - split; [done |]. intros (? & He & ?). destruct Hd.
    split; [done |]. split; [| done].
    intros p Hp. rewrite He in Hp. by apply not_elem_of_empty in Hp.
Qed.

Section MatcherProperties.

Context {RID : Type} `{Countable RID}.
Variable getRecurrenceIDUTC : Component → option RID.
Variable deriveInstance : Component → option RID → option Component.

Lemma matched_loop_cases (attendee : string)
    (map2 : gmap (@Key RID) Component)
    (items : list (@Key RID * Component)) (au : bool) :
  (∀ k v, (k, v) ∈ items → is_Some (map2 !! k)) →
  (matched_loop attendee map2 items au = Returned (false, false)
   ∧ ∃ k c1 c2, (k, c1) ∈ items ∧ map2 !! k = Some c2
                ∧ fst (_testComponents attendee c1 c2) = false)
  ∨ (∃ b, matched_loop attendee map2 items au = Fallthrough (au && b)
          ∧ (∀ k c1 c2, (k, c1) ∈ items → map2 !! k = Some c2 →
                        fst (_testComponents attendee c1 c2) = true)
          ∧ (b = true ↔
             ∀ k c1 c2, (k, c1) ∈ items → map2 !! k = Some c2 →
                        snd (_testComponents attendee c1 c2) = true)).
Proof.
  revert au. induction items as [|[k c1] rest IH]; intros au Hlook; simpl.
  - right. exists true. rewrite andb_true_r. repeat split; try done.
    all: intros; absurd_nil.
  - destruct (Hlook k c1) as [c2 Hc2]; [by left |]. rewrite Hc2.
    destruct (_testComponents attendee c1 c2) as [a u] eqn:Ht.
    destruct a; simpl.
    + destruct (IH (au && u)) as [(Hr & k' & c1' & c2' & Hin & Hl & Hf)
                                 | (b & Hr & Hall & Hb)].
      { intros k' v' ?. apply (Hlook k' v'). by right. }
      * left. split; [done |]. exists k', c1', c2'.
        split; [by right | done].
      * right. exists (u && b). rewrite andb_assoc. split; [done |]. split.
        -- intros k' c1' c2' [[= -> ->] | Hin]%elem_of_cons Hl.
           ++ assert (c2' = c2) as -> by congruence. by rewrite Ht.
           ++ by eapply Hall.
        -- rewrite andb_true_iff, Hb. split.
           ++ intros [-> Hrest] k' c1' c2' [[= -> ->] | Hin]%elem_of_cons Hl.
              ** assert (c2' = c2) as -> by congruence. by rewrite Ht.
              ** by eapply Hrest.
           ++ intros Hall'. split.
              ** specialize (Hall' k c1 c2). rewrite Ht in Hall'.
                 apply Hall'; [by left | done].
              ** intros k' c1' c2' Hin. apply Hall'. by right.
    + left. split; [done |]. exists k, c1, c2.
      split; [by left |]. split; [done |]. by rewrite Ht.
Qed.

Lemma derived_loop_cases (attendee : string) (calendar1 : Component)
    (map2 : gmap (@Key RID) Component) (keys : list (@Key RID)) (au : bool) :
  (∀ k, k ∈ keys → is_Some (map2 !! k)) →
  (derived_loop deriveInstance attendee calendar1 map2 keys au
     = Returned (false, false)
   ∧ ∃ k, k ∈ keys
          ∧ (deriveInstance calendar1 k.2 = None
             ∨ ∃ c1 c2, deriveInstance calendar1 k.2 = Some c1
                        ∧ map2 !! k = Some c2
                        ∧ fst (_testComponents attendee c1 c2) = false))
  ∨ (∃ b, derived_loop deriveInstance attendee calendar1 map2 keys au
            = Fallthrough (au && b)
          ∧ (∀ k, k ∈ keys →
               ∃ c1 c2, deriveInstance calendar1 k.2 = Some c1
                        ∧ map2 !! k = Some c2
                        ∧ fst (_testComponents attendee c1 c2) = true)
          ∧ (b = true ↔
             ∀ k c1 c2, k ∈ keys → deriveInstance calendar1 k.2 = Some c1 →
                        map2 !! k = Some c2 →
                        snd (_testComponents attendee c1 c2) = true)).
Proof.
  revert au. induction keys as [|k rest IH]; intros au Hlook; simpl.
  - right. exists true. rewrite andb_true_r. repeat split; try done.
    all: intros; absurd_nil.
  - destruct (deriveInstance calendar1 k.2) as [c1|] eqn:Hd.
    2:{ left. split; [done |]. exists k. split; [by left | by left]. }
    destruct (Hlook k) as [c2 Hc2]; [by left |]. rewrite Hc2.
    destruct (_testComponents attendee c1 c2) as [a u] eqn:Ht.
    destruct a; simpl.
    + destruct (IH (au && u)) as [(Hr & k' & Hin & Hf) | (b & Hr & Hall & Hb)].
      { intros ? ?. apply Hlook. by right. }
      * left. split; [done |]. exists k'. split; [by right | done].
      * right. exists (u && b). rewrite andb_assoc. split; [done |]. split.
        -- intros k' [-> | Hin]%elem_of_cons.
           ++ exists c1, c2. by rewrite Ht.
           ++ by apply Hall.
        -- rewrite andb_true_iff, Hb. split.
           ++ intros [-> Hrest] k' c1' c2' [-> | Hin]%elem_of_cons Hd' Hl.
              ** pose proof (eq_trans (eq_sym Hd) Hd') as [= <-].
                 pose proof (eq_trans (eq_sym Hc2) Hl) as [= <-].
                 by rewrite Ht.
              ** by eapply Hrest.
           ++ intros Hall'. split.
              ** specialize (Hall' k c1 c2). rewrite Ht in Hall'.
                 apply Hall'; [by left | done..].
              ** intros k' c1' c2' Hin. apply Hall'. by right.
    + left. split; [done |]. exists k. split; [by left |].
      right. exists c1, c2. by rewrite Ht.
Qed.

End MatcherProperties.

Section MatcherResult.

Context {RID : Type} `{Countable RID}.
Variable getRecurrenceIDUTC : Component → option RID.
Variable deriveInstance : Component → option RID → option Component.

Lemma compared_matched (calendar1 calendar2 : Component) (key : @Key RID)
    (c1 c2 : Component) :
  (key, c1) ∈ map_to_list (mapComponents getRecurrenceIDUTC calendar1) →
  mapComponents getRecurrenceIDUTC calendar2 !! key = Some c2 →
  compared getRecurrenceIDUTC deriveInstance calendar1 calendar2 key c1 c2.
Proof.
  intros Hin Hl. split; [done |]. left. by apply elem_of_map_to_list.
Qed.

Lemma compared_derived (calendar1 calendar2 : Component) (key : @Key RID)
    (c1 c2 : Component) :
  key ∈ elements (dom (mapComponents getRecurrenceIDUTC calendar2)
                  ∖ dom (mapComponents getRecurrenceIDUTC calendar1)) →
  deriveInstance calendar1 key.2 = Some c1 →
  mapComponents getRecurrenceIDUTC calendar2 !! key = Some c2 →
  compared getRecurrenceIDUTC deriveInstance calendar1 calendar2 key c1 c2.
Proof.
  rewrite elem_of_elements, elem_of_difference.
  intros [_ Hn] Hd Hl. split; [done |]. right. split; [| done].
  by apply not_elem_of_dom.
Qed.

Lemma compared_cases (calendar1 calendar2 : Component) (key : @Key RID)
    (c1 c2 : Component) :
  compared getRecurrenceIDUTC deriveInstance calendar1 calendar2 key c1 c2 →
  mapComponents getRecurrenceIDUTC calendar2 !! key = Some c2
  ∧ ((key, c1) ∈ map_to_list (mapComponents getRecurrenceIDUTC calendar1)
     ∨ (key ∈ elements (dom (mapComponents getRecurrenceIDUTC calendar2)
                        ∖ dom (mapComponents getRecurrenceIDUTC calendar1))
        ∧ deriveInstance calendar1 key.2 = Some c1)).
Proof.
  intros [Hl [Hm | [Hn Hd]]]; (split; [done |]).
  - left. by apply elem_of_map_to_list.
  - right. split; [| done].
    rewrite elem_of_elements, elem_of_difference. split.
    + apply elem_of_dom. eauto.
    + by apply not_elem_of_dom.
Qed.

Lemma pair_true_true (r : bool * bool) :
  fst r = true → snd r = true → r = (true, true).
Proof. destruct r; simpl; congruence. Qed.

(** The result of [_compareComponents], read off the pairs it compares. *)
Lemma compareComponents_spec (attendee : string)
    (calendar1 calendar2 : Component) :
  ∃ a u,
    _compareComponents getRecurrenceIDUTC deriveInstance attendee
      calendar1 calendar2 = Some (a, u)
    ∧ (a = false → u = false)
    ∧ (a = true ↔
       keys_subset getRecurrenceIDUTC calendar1 calendar2
       ∧ derivable getRecurrenceIDUTC deriveInstance calendar1 calendar2
       ∧ ∀ key c1 c2,
           compared getRecurrenceIDUTC deriveInstance
             calendar1 calendar2 key c1 c2 →
           fst (_testComponents attendee c1 c2) = true)
    ∧ (u = true ↔
       keys_subset getRecurrenceIDUTC calendar1 calendar2
       ∧ derivable getRecurrenceIDUTC deriveInstance calendar1 calendar2
       ∧ ∀ key c1 c2,
           compared getRecurrenceIDUTC deriveInstance
             calendar1 calendar2 key c1 c2 →
           unchanged_pair c1 c2).
Proof.
  unfold _compareComponents, keys_subset, derivable.
  set (map1 := mapComponents getRecurrenceIDUTC calendar1).
  set (map2 := mapComponents getRecurrenceIDUTC calendar2).
  case_bool_decide as Hsub.
  { exists false, false. split; [done |]. split; [done |].
    split; (split; [done |]); intros (Hk & _); destruct Hsub;
      apply elem_of_equiv_empty_L; intros x [? ?]%elem_of_difference; auto. }
  assert (Hks : dom map1 ⊆ dom map2).
  { intros x Hx. destruct (decide (x ∈ dom map2)) as [| Hn]; [done |].
    assert (Hd : x ∈ dom map1 ∖ dom map2) by by apply elem_of_difference.
    rewrite Hsub in Hd. by apply not_elem_of_empty in Hd. }
  destruct (matched_loop_cases attendee map2 (map_to_list map1) true)
    as [(Hr & k & c1 & c2 & Hin & Hl & Hf) | (b & Hr & Hall & Hb)].
  { intros k v Hin%elem_of_map_to_list.
    apply elem_of_dom, Hks, elem_of_dom. eauto. }
  { rewrite Hr. exists false, false. split; [done |]. split; [done |].
    pose proof (compared_matched calendar1 calendar2 k c1 c2 Hin Hl) as Hc.
    split; (split; [done |]); intros (_ & _ & Hcmp);
      specialize (Hcmp k c1 c2 Hc).
    - congruence.
    - apply (testComponents_unchanged attendee) in Hcmp.
      rewrite Hcmp in Hf. done. }
  rewrite Hr.
  destruct (derived_loop_cases deriveInstance attendee calendar1 map2
              (elements (dom map2 ∖ dom map1)) (true && b))
    as [(Hr' & k & Hin & Hf) | (b' & Hr' & Hall' & Hb')].
  { intros k [Hk _]%elem_of_elements%elem_of_difference.
    by apply elem_of_dom. }
  { rewrite Hr'. exists false, false. split; [done |]. split; [done |].
    assert (Hbad : ∀ P : Component → Component → Prop,
              (∀ c1 c2, P c1 c2 → fst (_testComponents attendee c1 c2) = true) →
              ¬ ((∀ key : @Key RID, key ∈ dom map2 → key ∉ dom map1 →
                    is_Some (deriveInstance calendar1 key.2))
                 ∧ ∀ key c1 c2,
                     compared getRecurrenceIDUTC deriveInstance
                       calendar1 calendar2 key c1 c2 → P c1 c2)).
    { intros P HP [Hder Hcmp].
      destruct Hf as [Hnone | (c1 & c2 & Hd & Hl & Hf)].
      - apply elem_of_elements, elem_of_difference in Hin as [Hk Hn].
        destruct (Hder k Hk Hn) as [c Hc].
        pose proof (eq_trans (eq_sym Hnone) Hc). done.
      - pose proof (compared_derived calendar1 calendar2 k c1 c2 Hin Hd Hl)
          as Hc.
        apply Hcmp, HP in Hc. congruence. }
    split; (split; [done |]); intros (_ & Hder & Hcmp).
    - destruct (Hbad (fun c1 c2 => fst (_testComponents attendee c1 c2) = true));
        [done | by split].
    - destruct (Hbad unchanged_pair); [| by split].
      intros c1 c2 Hu%(testComponents_unchanged attendee). by rewrite Hu. }
  rewrite Hr'. exists true, (true && b && b').
  assert (Hfst : ∀ key c1 c2,
            compared getRecurrenceIDUTC deriveInstance
              calendar1 calendar2 key c1 c2 →
            fst (_testComponents attendee c1 c2) = true).
  { intros key c1 c2 (Hl & [Hm | [Hk Hd]])%compared_cases.
    - by eapply Hall.
    - destruct (Hall' key Hk) as (c1' & c2' & Hd' & Hl' & Ht).
      pose proof (eq_trans (eq_sym Hd) Hd') as [= <-].
      pose proof (eq_trans (eq_sym Hl) Hl') as [= <-]. done. }
  assert (Hder : ∀ key : @Key RID, key ∈ dom map2 → key ∉ dom map1 →
                   is_Some (deriveInstance calendar1 key.2)).
  { intros key Hk Hn. destruct (Hall' key) as (c1 & _ & Hd & _).
    - by rewrite elem_of_elements, elem_of_difference.
    - eauto. }
  split; [done |]. split; [done |]. split; [done |].
  simpl. rewrite andb_true_iff, Hb, Hb'. split.
  - intros [Hs Hs']. split; [done |]. split; [done |].
    intros key c1 c2 Hc. apply (testComponents_unchanged attendee).
    apply pair_true_true; [by eapply Hfst |].
    apply compared_cases in Hc as (Hl & [Hm | [Hk Hd]]).
    + by eapply Hs.
    + by eapply Hs'.
  - intros (_ & _ & Hcmp). split.
    + intros k c1 c2 Hin Hl.
      pose proof (compared_matched calendar1 calendar2 k c1 c2 Hin Hl) as Hc.
      apply Hcmp, (testComponents_unchanged attendee) in Hc. by rewrite Hc.
    + intros k c1 c2 Hin Hd Hl.
      pose proof (compared_derived calendar1 calendar2 k c1 c2 Hin Hd Hl)
        as Hc.
      apply Hcmp, (testComponents_unchanged attendee) in Hc. by rewrite Hc.
Qed.

End MatcherResult.

(** ** The public operations: what they compute and what they leave *)

Lemma fresh_not_in (h : gmap loc Component) (r : loc) (d : Component) :
  h !! r = Some d → r ≠ fresh (dom h).
Proof.
  intros Hr ->. apply (is_fresh (dom h)). apply elem_of_dom. eauto.
Qed.

Lemma with_copy_old (h : gmap loc Component) (v : Component) (r : loc) :
  r ∈ dom h → with_copy h v !! r = h !! r.
Proof.
  intros Hr. unfold with_copy. apply lookup_insert_ne.
  intros <-. by apply (is_fresh (dom h)).
Qed.

Lemma with_copy_new (h : gmap loc Component) (v : Component) :
  with_copy h v !! fresh (dom h) = Some v.
Proof. apply lookup_insert_eq. Qed.

Lemma with_copy_overwrite (h : gmap loc Component) (v v' : Component) :
  <[ fresh (dom h) := v' ]> (with_copy h v) = with_copy h v'.
Proof. apply insert_insert_eq. Qed.

(** [organizerDiff] leaves an alarm-free copy of each document at a new
    address and compares the two copies. *)
Lemma organizerDiff_run (w : world) (d1 d2 : Component) :
  heap w !! calendar1 (self w) = Some d1 →
  heap w !! calendar2 (self w) = Some d2 →
  let h1 := with_copy (heap w) (removeAlarms d1) in
  let h2 := with_copy h1 (removeAlarms d2) in
  organizerDiff w =
  Some (comp_eqb (removeAlarms d1) (removeAlarms d2),
        mkWorld h2 (mkDiff (fresh (dom (heap w))) (fresh (dom h1))
                           (attendee (self w)))).
Proof.
  destruct w as [h [r1 r2 a]]. simpl. intros H1 H2.
  unfold organizerDiff, bind, duplicate, in_place, read, ret,
    get_calendar1, get_calendar2, set_calendar1, set_calendar2. simpl.
  rewrite H1. simpl. rewrite lookup_insert_eq. simpl.
  fold (with_copy h d1). rewrite with_copy_overwrite.
  rewrite with_copy_old by (apply elem_of_dom; eauto).
  rewrite H2. simpl. rewrite lookup_insert_eq. simpl.
  fold (with_copy (with_copy h (removeAlarms d1)) d2).
  rewrite with_copy_overwrite.
  rewrite with_copy_old by (apply elem_of_dom; rewrite with_copy_new; eauto).
  rewrite with_copy_new. simpl. by rewrite with_copy_new.
Qed.

Section MergeRun.

Context {RID : Type} `{Countable RID}.
Variable getRecurrenceIDUTC : Component → option RID.
Variable deriveInstance : Component → option RID → option Component.
Variable removeXProperties : Component → Component.
Variable attendeesView : list string → Component → Component.
Variable prepareSchedulingMessage : Component → Component.

(** [attendeeMerge] leaves a normalised copy of each document at a new
    address and computes [merge_result] of the two copies. *)
Lemma attendeeMerge_run (a : string) (w : world) (d1 d2 : Component) :
  heap w !! calendar1 (self w) = Some d1 →
  heap w !! calendar2 (self w) = Some d2 →
  let v1 := normalized1 removeXProperties attendeesView
              prepareSchedulingMessage a d1 in
  let v2 := normalized2 removeXProperties prepareSchedulingMessage d2 in
  let h1 := with_copy (heap w) v1 in
  let h2 := with_copy h1 v2 in
  attendeeMerge getRecurrenceIDUTC deriveInstance removeXProperties
    attendeesView prepareSchedulingMessage a w =
  (fun r => (r, mkWorld h2 (mkDiff (fresh (dom (heap w))) (fresh (dom h1))
                                   (Some a))))
  <$> merge_result getRecurrenceIDUTC deriveInstance a v1 v2.
Proof.
  destruct w as [h [r1 r2 a0]]. simpl. intros H1 H2.
  unfold attendeeMerge, bind, duplicate, in_place, read, ret, lift_exn,
    get_calendar1, get_calendar2, set_calendar1, set_calendar2,
    set_attendee. simpl.
  rewrite H1. simpl. rewrite lookup_insert_eq. simpl.
  fold (with_copy h d1). rewrite with_copy_overwrite.
  rewrite with_copy_new. simpl. rewrite with_copy_overwrite.
  rewrite with_copy_new. simpl. rewrite with_copy_overwrite.
  fold (normalized1 removeXProperties attendeesView
          prepareSchedulingMessage a d1).
  set (v1 := normalized1 _ _ _ a d1).
  rewrite with_copy_old by (apply elem_of_dom; eauto).
  rewrite H2. simpl. rewrite lookup_insert_eq. simpl.
  fold (with_copy (with_copy h v1) d2). rewrite with_copy_overwrite.
  rewrite with_copy_new. simpl. rewrite with_copy_overwrite.
  fold (normalized2 removeXProperties prepareSchedulingMessage d2).
  set (v2 := normalized2 _ _ d2).
  rewrite with_copy_old by (apply elem_of_dom; rewrite with_copy_new; eauto).
  rewrite with_copy_new. simpl. rewrite with_copy_new.
  unfold merge_result.
  destruct (comp_eqb v1 v2); [done |].
  destruct (_checkVCALENDARProperties v1 v2); [| done].
  destruct (_compareVTIMEZONEs v1 v2); [| done]. simpl.
  by destruct (_compareComponents _ _ _ _ _).
Qed.

Lemma merge_result_total (a : string) (v1 v2 : Component) :
  is_Some (merge_result getRecurrenceIDUTC deriveInstance a v1 v2).
Proof.
  unfold merge_result. repeat case_match; try done.
  destruct (compareComponents_spec getRecurrenceIDUTC deriveInstance
              a v1 v2) as (x & u & Hr & _).
  rewrite Hr. eauto.
Qed.

End MergeRun.

(** ** Alarms *)

Lemma removeAlarms_eq n ps cs :
  removeAlarms (Comp n ps cs) = Comp n ps (strip_alarms cs).
Proof.
  simpl. f_equal. induction cs as [|c cs IH]; [done |].
  simpl. rewrite IH. by case_bool_decide.
Qed.

Lemma strip_alarms_app l1 l2 :
  strip_alarms (l1 ++ l2) = (strip_alarms l1 ++ strip_alarms l2)%list.
Proof. apply flat_map_app. Qed.

Lemma alarm_added_name a b : alarm_added a b → name a = name b.
Proof. by intros []. Qed.

Lemma alarm_added_removeAlarms a b :
  alarm_added a b → removeAlarms a = removeAlarms b.
Proof.
  induction 1 as [n ps pre a post Ha | n ps pre c c' post Hc IH];
    rewrite !removeAlarms_eq; f_equal; rewrite !strip_alarms_app; f_equal;
    simpl.
  - by rewrite bool_decide_eq_true_2.
  - rewrite (alarm_added_name _ _ Hc), IH. done.
Qed.

(** C5. [organizerDiff] duplicates both documents, removes the alarms from
    each duplicate and returns whether the two alarm-free duplicates are
    equal; two documents that are the same but for one VALARM give True. *)
Theorem organizerDiff_ignores_alarms (w : world) (d1 d2 : Component) :
  heap w !! calendar1 (self w) = Some d1 →
  heap w !! calendar2 (self w) = Some d2 →
  let h1 := with_copy (heap w) (removeAlarms d1) in
  let h2 := with_copy h1 (removeAlarms d2) in
  organizerDiff w =
    Some (comp_eqb (removeAlarms d1) (removeAlarms d2),
          mkWorld h2 (mkDiff (fresh (dom (heap w))) (fresh (dom h1))
                             (attendee (self w))))
  ∧ (alarm_added d1 d2 ∨ alarm_added d2 d1 →
     result_of (organizerDiff w) = Some true).
Proof.
  intros H1 H2 h1 h2.
  pose proof (organizerDiff_run w d1 d2 H1 H2) as Hrun. simpl in Hrun.
  split; [exact Hrun |].
  intros Hadd. unfold result_of. rewrite Hrun. simpl. f_equal.
  destruct Hadd as [Ha | Ha]; apply alarm_added_removeAlarms in Ha;
    rewrite Ha; apply comp_eqb_refl.
Qed.

Lemma organizerDiff_ignores_alarms_witness :
  result_of (organizerDiff
    (ex_world (ex_calendar [Comp "VEVENT" [prop "UID" "1"] [ex_alarm]])
              (ex_calendar [Comp "VEVENT" [prop "UID" "1"] []])))
  = Some true.
Proof.
  refine (proj2 (organizerDiff_ignores_alarms
            (ex_world (ex_calendar [Comp "VEVENT" [prop "UID" "1"] [ex_alarm]])
                      (ex_calendar [Comp "VEVENT" [prop "UID" "1"] []]))
            (ex_calendar [Comp "VEVENT" [prop "UID" "1"] [ex_alarm]])
            (ex_calendar [Comp "VEVENT" [prop "UID" "1"] []])
            eq_refl eq_refl) _).
  right.
  apply (alarm_inside "VCALENDAR" _ []
           (Comp "VEVENT" [prop "UID" "1"] [])
           (Comp "VEVENT" [prop "UID" "1"] [ex_alarm]) []).
  apply (alarm_here "VEVENT" _ [] ex_alarm []). reflexivity.
Defined.

(** ** The matcher and the merge: the claims *)

Section MergeTheorems.

Context {RID : Type} `{Countable RID}.
Variable getRecurrenceIDUTC : Component → option RID.
Variable deriveInstance : Component → option RID → option Component.
Variable removeXProperties : Component → Component.
Variable attendeesView : list string → Component → Component.
Variable prepareSchedulingMessage : Component → Component.

(** C3. When the two working copies are not equal and pass the checks of
    the VCALENDAR properties and of the timezones, and a key (type name,
    UID, recurrence identifier) of document A's components other than
    VTIMEZONE is not a key of document B, [attendeeMerge] returns
    (False, False). *)
Theorem attendeeMerge_missing_component (a : string) (w : world)
    (d1 d2 : Component) :
  heap w !! calendar1 (self w) = Some d1 →
  heap w !! calendar2 (self w) = Some d2 →
  let v1 := normalized1 removeXProperties attendeesView
              prepareSchedulingMessage a d1 in
  let v2 := normalized2 removeXProperties prepareSchedulingMessage d2 in
  comp_eqb v1 v2 = false →
  _checkVCALENDARProperties v1 v2 = true →
  _compareVTIMEZONEs v1 v2 = true →
  ¬ keys_subset getRecurrenceIDUTC v1 v2 →
  result_of (attendeeMerge getRecurrenceIDUTC deriveInstance
               removeXProperties attendeesView prepareSchedulingMessage a w)
  = Some (false, false).
Proof.
  intros H1 H2 v1 v2 Hne Hprops Htz Hkeys.
  rewrite (attendeeMerge_run _ _ _ _ _ a w d1 d2 H1 H2).
  fold v1 v2. unfold result_of, merge_result.
  rewrite Hne, Hprops, Htz. simpl.
  destruct (compareComponents_spec getRecurrenceIDUTC deriveInstance
              a v1 v2) as (x & u & Hr & Hxu & Hx & _).
  rewrite Hr. simpl. destruct x.
  - destruct Hkeys. by apply Hx.
  - by rewrite Hxu.
Qed.

(** C4. For a key that only document B's map has, the matcher asks
    document A for the instance derived at the recurrence identifier of the
    key.  Without one the matcher returns (False, False), and raises
    nothing; with one, the instance and B's component go through
    [_testComponents] as the matched pairs do: a mismatch gives
    (False, False), and the flag of the pair is one of those whose
    conjunction is the second boolean. *)
Theorem compareComponents_derived (a : string) (calendar1 calendar2 : Component)
    (key : @Key RID) (c2 : Component) :
  mapComponents getRecurrenceIDUTC calendar2 !! key = Some c2 →
  mapComponents getRecurrenceIDUTC calendar1 !! key = None →
  ∃ x u,
    _compareComponents getRecurrenceIDUTC deriveInstance a
      calendar1 calendar2 = Some (x, u)
    ∧ (deriveInstance calendar1 key.2 = None → (x, u) = (false, false))
    ∧ (∀ c1, deriveInstance calendar1 key.2 = Some c1 →
         (fst (_testComponents a c1 c2) = false → (x, u) = (false, false))
         ∧ (u = true → snd (_testComponents a c1 c2) = true))
    ∧ (x = true ↔
       keys_subset getRecurrenceIDUTC calendar1 calendar2
       ∧ derivable getRecurrenceIDUTC deriveInstance calendar1 calendar2
       ∧ ∀ key' c1' c2',
           compared getRecurrenceIDUTC deriveInstance
             calendar1 calendar2 key' c1' c2' →
           fst (_testComponents a c1' c2') = true)
    ∧ (x = true →
       (u = true ↔
        ∀ key' c1' c2',
          compared getRecurrenceIDUTC deriveInstance
            calendar1 calendar2 key' c1' c2' →
          snd (_testComponents a c1' c2') = true)).
Proof.
  intros Hl2 Hl1.
  destruct (compareComponents_spec getRecurrenceIDUTC deriveInstance
              a calendar1 calendar2) as (x & u & Hr & Hxu & Hx & Hu).
  exists x, u. split; [done |].
  assert (Hk2 : key ∈ dom (mapComponents getRecurrenceIDUTC calendar2))
    by (apply elem_of_dom; eauto).
  assert (Hk1 : key ∉ dom (mapComponents getRecurrenceIDUTC calendar1))
    by by apply not_elem_of_dom.
  split; [| split; [| split; [done |]]].
  - intros Hnone. destruct x; [| by rewrite Hxu].
    destruct Hx as [(_ & Hder & _) _]; [done |].
    destruct (Hder key Hk2 Hk1) as [c Hc].
    pose proof (eq_trans (eq_sym Hnone) Hc). done.
  - intros c1 Hd.
    assert (Hc : compared getRecurrenceIDUTC deriveInstance
                   calendar1 calendar2 key c1 c2) by (split; auto).
    split.
    + intros Hf. destruct x; [| by rewrite Hxu].
      destruct Hx as [(_ & _ & Hcmp) _]; [done |].
      rewrite (Hcmp _ _ _ Hc) in Hf. done.
    + intros Hut. destruct Hu as [(_ & _ & Hcmp) _]; [done |].
      apply Hcmp, (testComponents_unchanged a) in Hc. by rewrite Hc.
  - intros ->. destruct Hx as [(Hks & Hder & Hcmp) _]; [done |].
    rewrite Hu. split.
    + intros (_ & _ & Hun) key' c1' c2' Hc.
      apply Hun, (testComponents_unchanged a) in Hc. by rewrite Hc.
    + intros Hsnd. split; [done |]. split; [done |].
      intros key' c1' c2' Hc. apply (testComponents_unchanged a).
      apply pair_true_true; [by eapply Hcmp | by eapply Hsnd].
Qed.

(** C9. Once the subset check has passed, each key the matching loop takes
    from map1 is a key of map2: the lookup [map2[key]] succeeds, neither
    loop raises, and the matcher returns a pair. *)
Theorem compareComponents_lookup_succeeds (a : string)
    (calendar1 calendar2 : Component) :
  let map1 := mapComponents getRecurrenceIDUTC calendar1 in
  let map2 := mapComponents getRecurrenceIDUTC calendar2 in
  dom map1 ∖ dom map2 = ∅ →
  (∀ key value, (key, value) ∈ map_to_list map1 → is_Some (map2 !! key))
  ∧ matched_loop a map2 (map_to_list map1) true ≠ Raised
  ∧ (∀ au, derived_loop deriveInstance a calendar1 map2
             (elements (dom map2 ∖ dom map1)) au ≠ Raised)
  ∧ is_Some (_compareComponents getRecurrenceIDUTC deriveInstance a
               calendar1 calendar2).
Proof.
  intros map1 map2 Hsub.
  assert (Hlook : ∀ key value,
            (key, value) ∈ map_to_list map1 → is_Some (map2 !! key)).
  { intros key value Hin%elem_of_map_to_list.
    apply elem_of_dom.
    destruct (decide (key ∈ dom map2)) as [| Hn]; [done |].
    assert (Hd : key ∈ dom map1 ∖ dom map2).
    { apply elem_of_difference. split; [| done]. apply elem_of_dom. eauto. }
    rewrite Hsub in Hd. by apply not_elem_of_empty in Hd. }
  split; [exact Hlook |]. split; [| split].
  - destruct (matched_loop_cases a map2 (map_to_list map1) true Hlook)
      as [[Hr _] | (b & Hr & _)]; by rewrite Hr.
  - intros au.
    destruct (derived_loop_cases deriveInstance a calendar1 map2
                (elements (dom map2 ∖ dom map1)) au)
      as [[Hr _] | (b & Hr & _)]; try by rewrite Hr.
    intros k [Hk _]%elem_of_elements%elem_of_difference.
    by apply elem_of_dom.
  - destruct (compareComponents_spec getRecurrenceIDUTC deriveInstance
                a calendar1 calendar2) as (x & u & Hr & _).
    rewrite Hr. eauto.
Qed.

(** C7. Neither operation changes a document that was there when it was
    called, the two documents of the caller among them: all that is removed
    or normalised is removed or normalised in the duplicates, which are new
    documents. *)
Theorem operations_preserve_documents (a : string) (w : world)
    (d1 d2 : Component) :
  heap w !! calendar1 (self w) = Some d1 →
  heap w !! calendar2 (self w) = Some d2 →
  (∃ b w', organizerDiff w = Some (b, w')
           ∧ heap w' !! calendar1 (self w) = Some d1
           ∧ heap w' !! calendar2 (self w) = Some d2
           ∧ ∀ r, r ∈ dom (heap w) → heap w' !! r = heap w !! r)
  ∧ (∃ r w', attendeeMerge getRecurrenceIDUTC deriveInstance
               removeXProperties attendeesView prepareSchedulingMessage a w
             = Some (r, w')
             ∧ heap w' !! calendar1 (self w) = Some d1
             ∧ heap w' !! calendar2 (self w) = Some d2
             ∧ ∀ r, r ∈ dom (heap w) → heap w' !! r = heap w !! r).
Proof.
  intros H1 H2.
  assert (Hframe : ∀ v1 v2 r, r ∈ dom (heap w) →
            with_copy (with_copy (heap w) v1) v2 !! r = heap w !! r).
  { intros v1 v2 r Hr. rewrite with_copy_old; [by apply with_copy_old |].
    apply elem_of_dom. rewrite with_copy_old by done. by apply elem_of_dom. }
  assert (Hd1 : calendar1 (self w) ∈ dom (heap w)) by (apply elem_of_dom; eauto).
  assert (Hd2 : calendar2 (self w) ∈ dom (heap w)) by (apply elem_of_dom; eauto).
  split.
  - eexists _, _. split; [apply (organizerDiff_run w d1 d2 H1 H2) |].
    simpl. rewrite !Hframe by done. auto.
  - rewrite (attendeeMerge_run getRecurrenceIDUTC deriveInstance
               removeXProperties attendeesView prepareSchedulingMessage
               a w d1 d2 H1 H2).
    destruct (merge_result_total getRecurrenceIDUTC deriveInstance a
                (normalized1 removeXProperties attendeesView
                   prepareSchedulingMessage a d1)
                (normalized2 removeXProperties prepareSchedulingMessage d2))
      as [r Hr].
    rewrite Hr. simpl. eexists _, _. split; [done |].
    simpl. rewrite !Hframe by done. auto.
Qed.

(** C8. None of [attendeeMerge], [_compareComponents] and [_testComponents]
    returns (False, True): each returns a pair, and when its first boolean
    is False so is its second. *)
Theorem never_false_true (a : string) (w : world) (d1 d2 : Component)
    (calendar1' calendar2' comp1 comp2 : Component) :
  heap w !! calendar1 (self w) = Some d1 →
  heap w !! calendar2 (self w) = Some d2 →
  (∃ x u w', attendeeMerge getRecurrenceIDUTC deriveInstance
               removeXProperties attendeesView prepareSchedulingMessage a w
             = Some ((x, u), w')
             ∧ (x = false → u = false))
  ∧ (∃ x u, _compareComponents getRecurrenceIDUTC deriveInstance a
              calendar1' calendar2' = Some (x, u)
            ∧ (x = false → u = false))
  ∧ (∃ x u, _testComponents a comp1 comp2 = (x, u)
            ∧ (x = false → u = false)).
Proof.
  intros H1 H2. split; [| split].
  - rewrite (attendeeMerge_run getRecurrenceIDUTC deriveInstance
               removeXProperties attendeesView prepareSchedulingMessage
               a w d1 d2 H1 H2).
    unfold merge_result.
    destruct (comp_eqb _ _); [by eexists true, true, _ |].
    destruct (_checkVCALENDARProperties _ _); [| by eexists false, false, _].
    destruct (_compareVTIMEZONEs _ _); [| by eexists false, false, _].
    simpl.
    destruct (compareComponents_spec getRecurrenceIDUTC deriveInstance a
                (normalized1 removeXProperties attendeesView
                   prepareSchedulingMessage a d1)
                (normalized2 removeXProperties prepareSchedulingMessage d2))
      as (x & u & Hr & Hxu & _).
    rewrite Hr. simpl. by eexists x, u, _.
  - destruct (compareComponents_spec getRecurrenceIDUTC deriveInstance a
                calendar1' calendar2') as (x & u & Hr & Hxu & _).
    by exists x, u.
  - destruct (_testComponents a comp1 comp2) as [x u] eqn:Ht.
    exists x, u. split; [done |]. intros ->.
    pose proof (testComponents_no_false_true a comp1 comp2) as Hn.
    rewrite Ht in Hn. specialize (Hn eq_refl). congruence.
Qed.

(** C2, as the code has it.  The second boolean of [attendeeMerge] is True
    exactly when nothing of substance changed: the two working copies are
    equal, or the document-level checks pass, every key of A is a key of B,
    every key of B alone has a derived instance, and in every pair of
    components compared nothing but volatile properties differs.  It is
    False otherwise, so also when the attendee's own property changed. *)
Theorem attendeeMerge_second_boolean (a : string) (w : world)
    (d1 d2 : Component) :
  heap w !! calendar1 (self w) = Some d1 →
  heap w !! calendar2 (self w) = Some d2 →
  ∃ x u w',
    attendeeMerge getRecurrenceIDUTC deriveInstance
      removeXProperties attendeesView prepareSchedulingMessage a w
    = Some ((x, u), w')
    ∧ (u = true ↔
       no_substantive_change getRecurrenceIDUTC deriveInstance
         (normalized1 removeXProperties attendeesView
            prepareSchedulingMessage a d1)
         (normalized2 removeXProperties prepareSchedulingMessage d2)).
Proof.
  intros H1 H2.
  rewrite (attendeeMerge_run getRecurrenceIDUTC deriveInstance
             removeXProperties attendeesView prepareSchedulingMessage
             a w d1 d2 H1 H2).
  unfold merge_result, no_substantive_change.
  set (v1 := normalized1 _ _ _ a d1). set (v2 := normalized2 _ _ d2).
  destruct (comp_eqb v1 v2).
  { eexists true, true, _. split; [done |]. split; auto. }
  destruct (_checkVCALENDARProperties v1 v2).
  2:{ eexists false, false, _. split; [done |].
      split; [done |]. intros [? | (? & _)]; done. }
  destruct (_compareVTIMEZONEs v1 v2).
  2:{ eexists false, false, _. split; [done |].
      split; [done |]. intros [? | (_ & ? & _)]; done. }
  simpl.
  destruct (compareComponents_spec getRecurrenceIDUTC deriveInstance
              a v1 v2) as (x & u & Hr & _ & _ & Hu).
  rewrite Hr. simpl. eexists x, u, _. split; [done |].
  rewrite Hu. split.
  - intros (? & ? & ?). right. auto.
  - intros [? | (_ & _ & ? & ? & ?)]; [done | auto].
Qed.

End MergeTheorems.

(** ** The claims on concrete documents *)

Lemma attendeeMerge_missing_component_witness :
  let d1 := ex_calendar [ex_event "NEEDS-ACTION" "Office"; ex_todo] in
  let d2 := ex_calendar [ex_event "NEEDS-ACTION" "Office"] in
  result_of (ex_attendeeMerge user1 (ex_world d1 d2)) = Some (false, false).
Proof.
  intros d1 d2. unfold ex_attendeeMerge.
  refine (attendeeMerge_missing_component ex_getRecurrenceIDUTC
            ex_deriveInstance ex_removeXProperties ex_attendeesView
            ex_prepareSchedulingMessage user1 (ex_world d1 d2) d1 d2
            eq_refl eq_refl _ _ _ _).
  - vm_compute. reflexivity.
  - vm_compute. reflexivity.
  - vm_compute. reflexivity.
  - unfold keys_subset. by_evaluation.
Defined.

Lemma compareComponents_derived_witness :
  let calendar1 := ex_calendar [ex_master] in
  let calendar2 :=
    ex_calendar [ex_master; ex_override "20080603T120000Z" "ACCEPTED"] in
  ∃ x u,
    _compareComponents ex_getRecurrenceIDUTC ex_deriveInstance user1
      calendar1 calendar2 = Some (x, u)
    ∧ (u = true →
       snd (_testComponents user1
              (ex_override "20080603T120000Z" "NEEDS-ACTION")
              (ex_override "20080603T120000Z" "ACCEPTED")) = true).
Proof.
  intros calendar1 calendar2.
  destruct (compareComponents_derived ex_getRecurrenceIDUTC ex_deriveInstance
              user1 calendar1 calendar2
              ("VEVENT", Some "1", Some "20080603T120000Z")
              (ex_override "20080603T120000Z" "ACCEPTED"))
    as (x & u & Hr & _ & Hsome & _).
  - vm_compute. reflexivity.
  - vm_compute. reflexivity.
  - exists x, u. split; [exact Hr |].
    apply (Hsome (ex_override "20080603T120000Z" "NEEDS-ACTION")).
    vm_compute. reflexivity.
Defined.

Lemma compareComponents_lookup_succeeds_witness :
  is_Some (_compareComponents ex_getRecurrenceIDUTC ex_deriveInstance user1
             (ex_calendar [ex_master])
             (ex_calendar [ex_master;
                           ex_override "20080603T120000Z" "ACCEPTED"])).
Proof.
  apply (compareComponents_lookup_succeeds ex_getRecurrenceIDUTC
           ex_deriveInstance user1).
  by_evaluation.
Defined.

Lemma operations_preserve_documents_witness :
  let d1 := ex_calendar [Comp "VEVENT" [prop "UID" "1"] [ex_alarm]] in
  let d2 := ex_calendar [ex_event "ACCEPTED" "Office"] in
  ∃ r w', ex_attendeeMerge user1 (ex_world d1 d2) = Some (r, w')
          ∧ heap w' !! 1%positive = Some d1
          ∧ heap w' !! 2%positive = Some d2.
Proof.
  intros d1 d2.
  destruct (operations_preserve_documents ex_getRecurrenceIDUTC
              ex_deriveInstance ex_removeXProperties ex_attendeesView
              ex_prepareSchedulingMessage user1 (ex_world d1 d2) d1 d2
              eq_refl eq_refl)
    as [_ (r & w' & Hrun & Hk1 & Hk2 & _)].
  exists r, w'. split; [exact Hrun |]. split; [exact Hk1 | exact Hk2].
Defined.

Lemma never_false_true_witness :
  let d1 := ex_calendar [ex_event "NEEDS-ACTION" "Office"] in
  let d2 := ex_calendar [ex_event "ACCEPTED" "Home"] in
  ∃ x u w', ex_attendeeMerge user1 (ex_world d1 d2) = Some ((x, u), w')
            ∧ (x = false → u = false).
Proof.
  intros d1 d2.
  exact (proj1 (never_false_true ex_getRecurrenceIDUTC
                  ex_deriveInstance ex_removeXProperties ex_attendeesView
                  ex_prepareSchedulingMessage user1 (ex_world d1 d2) d1 d2
                  d1 d2 ex_master ex_todo eq_refl eq_refl)).
Defined.

Lemma attendeeMerge_second_boolean_witness :
  let d := ex_calendar [ex_event "NEEDS-ACTION" "Office"] in
  ∃ x u w', ex_attendeeMerge user1 (ex_world d d) = Some ((x, u), w')
            ∧ u = true.
Proof.
  intros d.
  destruct (attendeeMerge_second_boolean ex_getRecurrenceIDUTC
              ex_deriveInstance ex_removeXProperties ex_attendeesView
              ex_prepareSchedulingMessage user1 (ex_world d d) d d
              eq_refl eq_refl)
    as (x & u & w' & Hrun & Hu).
  exists x, u, w'. split; [exact Hrun |].
  apply Hu. left. vm_compute. reflexivity.
Defined.

(** C2, as stated, fails.  When nothing changed at all the second boolean
    is True, not False; and when the attendee's own property is the only
    thing that changed (the working copies differ, and the one property
    difference of the one pair compared is the ATTENDEE of that attendee)
    the second boolean is False, not True. *)
Lemma second_boolean_claim_refuted :
  let same := ex_calendar [ex_event "NEEDS-ACTION" "Office"] in
  let answered := ex_calendar [ex_event "ACCEPTED" "Office"] in
  let v1 := normalized1 ex_removeXProperties ex_attendeesView
              ex_prepareSchedulingMessage user1 same in
  (comp_eqb v1 (normalized2 ex_removeXProperties
                  ex_prepareSchedulingMessage same) = true
   ∧ result_of (ex_attendeeMerge user1 (ex_world same same))
     = Some (true, true))
  ∧ (comp_eqb v1 (normalized2 ex_removeXProperties
                    ex_prepareSchedulingMessage answered) = false
     ∧ remaining_diff (ex_event "NEEDS-ACTION" "Office")
                      (ex_event "ACCEPTED" "Office")
       = {[ mkProperty "ATTENDEE" user1 (partstat "NEEDS-ACTION");
            mkProperty "ATTENDEE" user1 (partstat "ACCEPTED") ]}
     ∧ result_of (ex_attendeeMerge user1 (ex_world same answered))
       = Some (true, false)).
Proof.
  intros same answered v1. split; [split | split; [| split]].
  - vm_compute. reflexivity.
  - vm_compute. reflexivity.
  - vm_compute. reflexivity.
  - by_evaluation.
  - vm_compute. reflexivity.
Qed.

(** The examples of the specification. *)
Example attendee_accepts :
  result_of (ex_attendeeMerge user1
    (ex_world (ex_calendar [ex_event "NEEDS-ACTION" "Office"])
              (ex_calendar [ex_event "ACCEPTED" "Office"])))
  = Some (true, false).
Proof. vm_compute. reflexivity. Qed.

Example attendee_moves_event :
  result_of (ex_attendeeMerge user1
    (ex_world (ex_calendar [ex_event "NEEDS-ACTION" "Office"])
              (ex_calendar [ex_event "NEEDS-ACTION" "Home"])))
  = Some (false, false).
Proof. vm_compute. reflexivity. Qed.

Example attendee_answers_instance :
  result_of (ex_attendeeMerge user1
    (ex_world (ex_calendar [ex_master])
              (ex_calendar [ex_master;
                            ex_override "20080603T120000Z" "ACCEPTED"])))
  = Some (true, false).
Proof. vm_compute. reflexivity. Qed.

Example instance_without_master :
  result_of (ex_attendeeMerge user1
    (ex_world (ex_calendar [ex_todo])
              (ex_calendar [ex_todo;
                            ex_override "20080603T120000Z" "ACCEPTED"])))
  = Some (false, false).
Proof. vm_compute. reflexivity. Qed.

(** ** The document-level comparators: properties *)

Lemma elem_of_prop_symdiff (c1 c2 : Component) (p : Property) :
  p ∈ prop_symdiff (propset c1) (propset c2) ↔
  (p ∈ properties c1 ↔ p ∉ properties c2).
Proof.
  unfold prop_symdiff, propset.
  rewrite elem_of_union, !elem_of_difference, !elem_of_list_to_set.
  destruct (decide (p ∈ properties c1)), (decide (p ∈ properties c2)); tauto.
Qed.

Lemma checkVCALENDARProperties_spec (calendar1 calendar2 : Component) :
  _checkVCALENDARProperties calendar1 calendar2 = true ↔
  ∀ p, pname p ∉ ignored →
       (p ∈ properties calendar1 ↔ p ∈ properties calendar2).
Proof.
  unfold _checkVCALENDARProperties.
  rewrite bool_decide_eq_true, size_empty_iff, elem_of_equiv_empty.
  split.
  - intros Hall p Hp. specialize (Hall p).
    rewrite elem_of_list_to_set, list_elem_of_filter, elem_of_elements,
      elem_of_prop_symdiff in Hall.
    destruct (decide (p ∈ properties calendar1)),
      (decide (p ∈ properties calendar2)); tauto.
  - intros Hall p.
    rewrite elem_of_list_to_set, list_elem_of_filter, elem_of_elements,
      elem_of_prop_symdiff.
    intros [Hp Hd]. specialize (Hall p Hp). tauto.
Qed.

(** X1. [_checkVCALENDARProperties] is True exactly when the two documents
    have the same top-level properties apart from those named PRODID or
    CALSCALE; order and repetition of the properties do not count. *)
Theorem checkVCALENDARProperties_iff (calendar1 calendar2 : Component) :
  _checkVCALENDARProperties calendar1 calendar2 = true ↔
  ∀ p, pname p ∉ ignored →
       (p ∈ properties calendar1 ↔ p ∈ properties calendar2).
Proof.
  unfold _checkVCALENDARProperties.
  rewrite bool_decide_eq_true, size_empty_iff, elem_of_equiv_empty.
  setoid_rewrite elem_of_list_to_set.
  setoid_rewrite list_elem_of_filter.
  setoid_rewrite elem_of_elements.
  setoid_rewrite elem_of_prop_symdiff.
  split; intros Hall p; specialize (Hall p);
    destruct (decide (p ∈ properties calendar1)),
      (decide (p ∈ properties calendar2)); tauto.
Qed.

Lemma checkVCALENDARProperties_ext (c1 c1' c2 c2' : Component) :
  (∀ q, pname q ∉ ignored → q ∈ properties c1 ↔ q ∈ properties c1') →
  (∀ q, pname q ∉ ignored → q ∈ properties c2 ↔ q ∈ properties c2') →
  _checkVCALENDARProperties c1 c2 = _checkVCALENDARProperties c1' c2'.
Proof.
  intros H1 H2. apply eq_true_iff_eq.
  rewrite !checkVCALENDARProperties_spec.
  split; intros Hall p Hp; specialize (Hall p Hp); specialize (H1 p Hp);
    specialize (H2 p Hp); tauto.
Qed.

Lemma addProperty_properties (p q : Property) (c : Component) :
  q ∈ properties (addProperty p c) ↔ q = p ∨ q ∈ properties c.
Proof.
  destruct c as [n ps cs]; simpl.
  rewrite elem_of_app, list_elem_of_singleton. tauto.
Qed.

Lemma removeProperty_properties (p q : Property) (c : Component) :
  q ∈ properties (removeProperty p c) ↔ q ≠ p ∧ q ∈ properties c.
Proof. destruct c as [n ps cs]; simpl. by rewrite list_elem_of_filter. Qed.

(** X2. A property named PRODID or CALSCALE never decides
    [_checkVCALENDARProperties]: adding one to either document, or removing
    one from either, leaves the result as it was. *)
Theorem checkVCALENDARProperties_ignores (p : Property)
    (calendar1 calendar2 : Component) :
  pname p ∈ ignored →
  _checkVCALENDARProperties (addProperty p calendar1) calendar2
    = _checkVCALENDARProperties calendar1 calendar2
  ∧ _checkVCALENDARProperties calendar1 (addProperty p calendar2)
    = _checkVCALENDARProperties calendar1 calendar2
  ∧ _checkVCALENDARProperties (removeProperty p calendar1) calendar2
    = _checkVCALENDARProperties calendar1 calendar2
  ∧ _checkVCALENDARProperties calendar1 (removeProperty p calendar2)
    = _checkVCALENDARProperties calendar1 calendar2.
Proof.
  intros Hp.
  assert (Hadd : ∀ c q, pname q ∉ ignored →
            q ∈ properties (addProperty p c) ↔ q ∈ properties c).
  { intros c q Hq. rewrite addProperty_properties.
    split; [intros [-> | ?]; [contradiction | done] | tauto]. }
  assert (Hrem : ∀ c q, pname q ∉ ignored →
            q ∈ properties (removeProperty p c) ↔ q ∈ properties c).
  { intros c q Hq. rewrite removeProperty_properties.
    split; [tauto |]. intros ?. split; [| done]. intros ->. contradiction. }
  repeat split; apply checkVCALENDARProperties_ext; auto.
Qed.

Lemma checkVCALENDARProperties_ignores_witness :
  _checkVCALENDARProperties
    (addProperty (prop "PRODID" "-//Other//EN") (ex_calendar []))
    (removeProperty (prop "PRODID" "-//Example//EN") (ex_calendar []))
  = true.
Proof.
  assert (H1 : pname (prop "PRODID" "-//Other//EN") ∈ ignored)
    by by_evaluation.
  assert (H2 : pname (prop "PRODID" "-//Example//EN") ∈ ignored)
    by by_evaluation.
  rewrite (proj1 (checkVCALENDARProperties_ignores _ (ex_calendar []) _ H1)).
  rewrite (proj2 (proj2 (proj2 (checkVCALENDARProperties_ignores
             _ (ex_calendar []) (ex_calendar []) H2)))).
  vm_compute. reflexivity.
Defined.

Lemma elem_of_extractTZIDs (calendar : Component) (t : option string) :
  t ∈ extractTZIDs calendar ↔ has_tzid calendar t.
Proof.
  unfold extractTZIDs, has_tzid.
  generalize (subcomponents calendar). intros l.
  assert (Hgen : ∀ acc : gset (option string),
    t ∈ foldl (fun tzids component =>
                 if bool_decide (name component = "VTIMEZONE")
                 then tzids ∪ {[ propertyValue "TZID" component ]}
                 else tzids) acc l
    ↔ t ∈ acc ∨ ∃ c, c ∈ l ∧ name c = "VTIMEZONE"
                     ∧ propertyValue "TZID" c = t).
  { induction l as [|c l IH]; intros acc; simpl.
    - split; [by left |]. intros [? | (c & Hc & _)]; [done |].
      by apply elem_of_nil in Hc.
    - rewrite IH. case_bool_decide as Hn.
      + rewrite elem_of_union, elem_of_singleton. split.
        * intros [[? | ->] | (c' & Hc' & ?)].
          -- by left.
          -- right. exists c. split; [by left | done].
          -- right. exists c'. split; [by right | done].
        * intros [? | (c' & [-> | Hc']%elem_of_cons & Hn' & Ht)].
          -- left. by left.
          -- left. right. done.
          -- right. exists c'. done.
      + split.
        * intros [? | (c' & Hc' & ?)]; [by left |].
          right. exists c'. split; [by right | done].
        * intros [? | (c' & [-> | Hc']%elem_of_cons & Hn' & Ht)].
          -- by left.
          -- contradiction.
          -- right. exists c'. done. }
  rewrite Hgen. split; [| by right].
  intros [Hin | ?]; [| done]. by apply not_elem_of_empty in Hin.
Qed.

Lemma compareVTIMEZONEs_spec (calendar1 calendar2 : Component) :
  _compareVTIMEZONEs calendar1 calendar2 = true ↔
  ∀ t, has_tzid calendar1 t ↔ has_tzid calendar2 t.
Proof.
  unfold _compareVTIMEZONEs. rewrite bool_decide_eq_true, set_eq.
  by setoid_rewrite elem_of_extractTZIDs.
Qed.

(** X3. [_compareVTIMEZONEs] is True exactly when the two documents have
    the same timezone identifiers: every TZID of a VTIMEZONE component of
    one is the TZID of a VTIMEZONE component of the other. *)
Theorem compareVTIMEZONEs_iff (calendar1 calendar2 : Component) :
  _compareVTIMEZONEs calendar1 calendar2 = true ↔
  ∀ t, has_tzid calendar1 t ↔ has_tzid calendar2 t.
Proof.
  unfold _compareVTIMEZONEs. rewrite bool_decide_eq_true.
  split.
  - intros He t. by rewrite <- !elem_of_extractTZIDs, He.
  - intros Hall. apply set_eq. intros t.
    by rewrite !elem_of_extractTZIDs.
Qed.

Lemma has_tzid_replace (n : string) (ps : list Property)
    (pre post : list Component) (c c' : Component) (t : option string) :
  (name c = "VTIMEZONE" ∧ propertyValue "TZID" c = t ↔
   name c' = "VTIMEZONE" ∧ propertyValue "TZID" c' = t) →
  has_tzid (Comp n ps (pre ++ c :: post)%list) t
  ↔ has_tzid (Comp n ps (pre ++ c' :: post)%list) t.
Proof.
  intros Hcc. unfold has_tzid. simpl.
  split; intros (x & Hx & Hn & Ht);
    apply elem_of_app in Hx as [Hx | [-> | Hx]%elem_of_cons].
  all: try (exists x; split; [| done]; rewrite elem_of_app, elem_of_cons;
            tauto).
  - exists c'. split; [| tauto]. rewrite elem_of_app, elem_of_cons. tauto.
  - exists c. split; [| tauto]. rewrite elem_of_app, elem_of_cons. tauto.
Qed.

(** X4. Of a VTIMEZONE component only the TZID is looked at (the FIXME of
    [_compareVTIMEZONEs]): putting another VTIMEZONE with the same TZID in
    its place, whatever its rules, leaves the result as it was, in either
    document; and a component that is not a VTIMEZONE may be replaced by
    any other that is not. *)
Theorem compareVTIMEZONEs_tzid_only (n : string) (ps : list Property)
    (pre post : list Component) (c c' other : Component) :
  (name c = "VTIMEZONE" ∧ name c' = "VTIMEZONE"
   ∧ propertyValue "TZID" c = propertyValue "TZID" c')
  ∨ (name c ≠ "VTIMEZONE" ∧ name c' ≠ "VTIMEZONE") →
  _compareVTIMEZONEs (Comp n ps (pre ++ c :: post)%list) other
    = _compareVTIMEZONEs (Comp n ps (pre ++ c' :: post)%list) other
  ∧ _compareVTIMEZONEs other (Comp n ps (pre ++ c :: post)%list)
    = _compareVTIMEZONEs other (Comp n ps (pre ++ c' :: post)%list).
Proof.
  intros Hcc.
  assert (Hrep : ∀ t, has_tzid (Comp n ps (pre ++ c :: post)%list) t
                      ↔ has_tzid (Comp n ps (pre ++ c' :: post)%list) t).
  { intros t. apply has_tzid_replace.
    destruct Hcc as [(Hn & Hn' & Ht) | [Hn Hn']]; [rewrite Ht |]; tauto. }
  split; apply eq_true_iff_eq; rewrite !compareVTIMEZONEs_spec;
    split; intros Hall t; specialize (Hall t); specialize (Hrep t); tauto.
Qed.

Lemma compareVTIMEZONEs_tzid_only_witness :
  _compareVTIMEZONEs
    (ex_calendar ([] ++ ex_timezone "US/Eastern" "FREQ=YEARLY;BYMONTH=10"
                  :: [ex_master])%list)
    (ex_calendar [ex_timezone "US/Eastern" "FREQ=YEARLY;BYMONTH=11"])
  = true.
Proof.
  unfold ex_calendar.
  rewrite (proj1 (compareVTIMEZONEs_tzid_only "VCALENDAR" _ [] [ex_master]
             (ex_timezone "US/Eastern" "FREQ=YEARLY;BYMONTH=10")
             (ex_timezone "US/Eastern" "FREQ=YEARLY;BYMONTH=11") _
             (or_introl (conj eq_refl (conj eq_refl eq_refl))))).
  vm_compute. reflexivity.
Defined.

(** ** The component comparator: more properties *)

(** X5. What [_testComponents] answers.  Its first boolean is True exactly
    when the type names are equal, every property difference outside the
    volatile names is the ATTENDEE property of the tested attendee, and the
    subcomponent sets are equal; its second boolean is True exactly when,
    besides, there is no such property difference at all. *)
Theorem testComponents_iff (a : string) (comp1 comp2 : Component) :
  (fst (_testComponents a comp1 comp2) = true ↔
   name comp1 = name comp2
   ∧ (∀ p, p ∈ remaining_diff comp1 comp2 → permitted a p)
   ∧ same_subcomponents comp1 comp2)
  ∧ (snd (_testComponents a comp1 comp2) = true ↔
     name comp1 = name comp2
     ∧ remaining_diff comp1 comp2 = ∅
     ∧ same_subcomponents comp1 comp2).
Proof.
  rewrite testComponents_spec. case_decide as Hd; simpl.
  - destruct Hd as (Hn & Hp & Hs). split; [done |].
    rewrite bool_decide_eq_true. tauto.
  - split; (split; [done |]); intros (Hn & Hp & Hs); destruct Hd;
      (split; [done |]); (split; [| done]); [done |].
    intros p Hin. rewrite Hp in Hin. by apply not_elem_of_empty in Hin.
Qed.

Lemma existsb_ext_in {A} (f g : A → bool) (l : list A) :
  (∀ x, x ∈ l → f x = g x) → existsb f l = existsb g l.
Proof.
  induction l as [|x l IH]; intros Hfg; [done |]. simpl.
  rewrite (Hfg x) by by left. rewrite IH; [done |].
  intros y Hy. apply Hfg. by right.
Qed.

Lemma forallb_ext_in {A} (f g : A → bool) (l : list A) :
  (∀ x, x ∈ l → f x = g x) → forallb f l = forallb g l.
Proof.
  induction l as [|x l IH]; intros Hfg; [done |]. simpl.
  rewrite (Hfg x) by by left. rewrite IH; [done |].
  intros y Hy. apply Hfg. by right.
Qed.

Lemma comp_eqb_sym (c1 c2 : Component) : comp_eqb c1 c2 = comp_eqb c2 c1.
Proof.
  revert c2. induction c1 as [n1 ps1 cs1 IH] using Component_nested_ind.
  intros [n2 ps2 cs2]. rewrite Forall_forall in IH. simpl.
  rewrite <- !andb_assoc. f_equal.
  { apply bool_decide_ext. split; by intros ->. }
  rewrite andb_comm. f_equal.
  - apply forallb_ext_in. intros y _. apply existsb_ext_in.
    intros x Hx. by apply IH.
  - apply forallb_ext_in. intros x Hx. apply existsb_ext_in.
    intros y _. by apply IH.
Qed.

Lemma filter_nil_iff {A} (P : A → Prop) `{∀ x, Decision (P x)} (l : list A) :
  filter P l = [] ↔ ∀ x, x ∈ l → ¬ P x.
Proof.
  induction l as [|x l IH].
  - split; [| done]. intros _ y Hy. by apply elem_of_nil in Hy.
  - rewrite filter_cons. case_decide as HP.
    + split; [done |]. intros Hall. destruct (Hall x); [by left | done].
    + rewrite IH. split.
      * intros Hall y [-> | Hy]%elem_of_cons; [done | by apply Hall].
      * intros Hall y Hy. apply Hall. by right.
Qed.

Lemma same_subcomponents_iff (c1 c2 : Component) :
  same_subcomponents c1 c2 ↔
  (∀ x, x ∈ subcomponents c1 → comp_in x (subcomponents c2) = true)
  ∧ (∀ y, y ∈ subcomponents c2 → comp_in y (subcomponents c1) = true).
Proof.
  unfold same_subcomponents, comp_symdiff.
  rewrite app_nil, !filter_nil_iff.
  assert (Hrev : ∀ l y, comp_in_rev l y = comp_in y l).
  { intros l y. apply existsb_ext_in. intros x _. apply comp_eqb_sym. }
  split; intros [H1 H2]; split; intros x Hx.
  - specialize (H1 x Hx). by destruct (comp_in x _).
  - specialize (H2 x Hx). rewrite Hrev in H2. by destruct (comp_in x _).
  - rewrite (H1 x Hx). done.
  - rewrite Hrev, (H2 x Hx). done.
Qed.

(** X6. [_testComponents] does not care which of the two components comes
    first: swapping them changes neither boolean. *)
Theorem testComponents_sym (a : string) (comp1 comp2 : Component) :
  _testComponents a comp1 comp2 = _testComponents a comp2 comp1.
Proof.
  rewrite !testComponents_spec.
  assert (Hd : remaining_diff comp1 comp2 = remaining_diff comp2 comp1).
  { apply set_eq. intros p. rewrite !elem_of_remaining_diff.
    destruct (decide (p ∈ properties comp1)),
      (decide (p ∈ properties comp2)); tauto. }
  assert (Hs : same_subcomponents comp1 comp2
               ↔ same_subcomponents comp2 comp1).
  { rewrite !same_subcomponents_iff. tauto. }
  rewrite Hd. case_decide as Ha; case_decide as Hb; try done.
  - destruct Hb. destruct Ha as (Hn & ? & ?). split; [done | tauto].
  - destruct Ha. destruct Hb as (Hn & ? & ?). split; [done | tauto].
Qed.

(** X7. [_testComponents] reads the properties of a component as a set:
    two components with the type name and the subcomponents of [comp1] and
    the same properties in another order, or repeated, compare alike, and
    so for [comp2]. *)
Theorem testComponents_property_order (a : string)
    (comp1 comp1' comp2 comp2' : Component) :
  name comp1 = name comp1' → name comp2 = name comp2' →
  subcomponents comp1 = subcomponents comp1' →
  subcomponents comp2 = subcomponents comp2' →
  (∀ q, q ∈ properties comp1 ↔ q ∈ properties comp1') →
  (∀ q, q ∈ properties comp2 ↔ q ∈ properties comp2') →
  _testComponents a comp1 comp2 = _testComponents a comp1' comp2'.
Proof.
  intros Hn1 Hn2 Hs1 Hs2 Hp1 Hp2. rewrite !testComponents_spec.
  assert (Hd : remaining_diff comp1 comp2 = remaining_diff comp1' comp2').
  { apply set_eq. intros q. rewrite !elem_of_remaining_diff.
    by rewrite (Hp1 q), (Hp2 q). }
  unfold same_subcomponents. rewrite Hd, Hn1, Hn2, Hs1, Hs2.
  by repeat case_decide.
Qed.

Lemma testComponents_property_order_witness :
  _testComponents user1
    (Comp "VEVENT" [prop "UID" "1"; prop "SUMMARY" "Lunch"] [])
    (Comp "VEVENT" [prop "SUMMARY" "Lunch"; prop "UID" "1";
                    prop "SUMMARY" "Lunch"] [])
  = (true, true).
Proof.
  rewrite (testComponents_property_order user1
             (Comp "VEVENT" [prop "UID" "1"; prop "SUMMARY" "Lunch"] [])
             (Comp "VEVENT" [prop "UID" "1"; prop "SUMMARY" "Lunch"] [])
             (Comp "VEVENT" [prop "SUMMARY" "Lunch"; prop "UID" "1";
                             prop "SUMMARY" "Lunch"] [])
             (Comp "VEVENT" [prop "UID" "1"; prop "SUMMARY" "Lunch"] [])
             eq_refl eq_refl eq_refl eq_refl).
  - vm_compute. reflexivity.
  - done.
  - intros q. simpl. rewrite !elem_of_cons, !elem_of_nil. tauto.
Defined.

(** ** The component matcher: more properties *)

Section MatcherMap.

Context {RID : Type} `{Countable RID}.
Variable getRecurrenceIDUTC : Component → option RID.
Variable deriveInstance : Component → option RID → option Component.

Lemma mapComponents_snoc (n : string) (ps : list Property)
    (cs : list Component) (c : Component) :
  mapComponents getRecurrenceIDUTC (Comp n ps (cs ++ [c])%list) =
  if bool_decide (name c = "VTIMEZONE")
  then mapComponents getRecurrenceIDUTC (Comp n ps cs)
  else <[ component_key getRecurrenceIDUTC c := c ]>
         (mapComponents getRecurrenceIDUTC (Comp n ps cs)).
Proof. unfold mapComponents. simpl. by rewrite foldl_snoc. Qed.

(** X8. What [mapComponents] holds: a component filed under a key is a
    subcomponent of the document, is not a VTIMEZONE, and has that key as
    its (type name, UID, recurrence identifier); and every subcomponent
    that is not a VTIMEZONE has its key in the map. *)
Theorem mapComponents_sound_complete (calendar : Component) :
  (∀ (key : @Key RID) (c : Component),
     mapComponents getRecurrenceIDUTC calendar !! key = Some c →
     c ∈ subcomponents calendar
     ∧ name c ≠ "VTIMEZONE"
     ∧ key = component_key getRecurrenceIDUTC c)
  ∧ (∀ c : Component,
       c ∈ subcomponents calendar → name c ≠ "VTIMEZONE" →
       component_key getRecurrenceIDUTC c
       ∈ dom (mapComponents getRecurrenceIDUTC calendar)).
Proof.
  destruct calendar as [n ps cs]. simpl.
  induction cs as [|x cs [IH1 IH2]] using rev_ind.
  - split.
    + intros key c. unfold mapComponents. simpl. by rewrite lookup_empty.
    + intros c Hc. by apply elem_of_nil in Hc.
  - rewrite mapComponents_snoc. split.
    + intros key c. case_bool_decide as Hx.
      * intros Hl. destruct (IH1 key c Hl) as (Hin & ? & ?).
        split; [| done]. apply elem_of_app. by left.
      * rewrite lookup_insert. case_decide as Hk.
        -- intros [= <-]. split; [| done].
           apply elem_of_app. right. by apply list_elem_of_singleton.
        -- intros Hl. destruct (IH1 key c Hl) as (Hin & ? & ?).
           split; [| done]. apply elem_of_app. by left.
    + intros c [Hc | ->%list_elem_of_singleton]%elem_of_app Hn.
      * case_bool_decide; [by apply IH2 |].
        rewrite dom_insert. apply elem_of_union. right. by apply IH2.
      * rewrite bool_decide_eq_false_2 by done.
        rewrite dom_insert. apply elem_of_union. left.
        by apply elem_of_singleton.
Qed.

(** X9. When several subcomponents have the same key, [mapComponents]
    keeps the last of them: a component that is not a VTIMEZONE and is
    followed by no other with its key is the one found under its key,
    whatever comes before it. *)
Theorem mapComponents_last_wins (n : string) (ps : list Property)
    (pre post : list Component) (c : Component) :
  name c ≠ "VTIMEZONE" →
  (∀ c', c' ∈ post → name c' ≠ "VTIMEZONE" →
         component_key getRecurrenceIDUTC c'
         ≠ component_key getRecurrenceIDUTC c) →
  mapComponents getRecurrenceIDUTC (Comp n ps (pre ++ c :: post)%list)
    !! component_key getRecurrenceIDUTC c = Some c.
Proof.
  intros Hn. induction post as [|x post IH] using rev_ind; intros Hpost.
  - rewrite mapComponents_snoc, bool_decide_eq_false_2 by done.
    apply lookup_insert_eq.
  - assert (Hassoc : (pre ++ c :: post ++ [x] = (pre ++ c :: post) ++ [x])%list)
      by by rewrite <- app_assoc.
    rewrite Hassoc, mapComponents_snoc.
    assert (IH' : mapComponents getRecurrenceIDUTC
                    (Comp n ps (pre ++ c :: post)%list)
                  !! component_key getRecurrenceIDUTC c = Some c).
    { apply IH. intros c' Hc'. apply Hpost, elem_of_app. by left. }
    case_bool_decide as Hx; [done |].
    rewrite lookup_insert_ne; [done |].
    apply Hpost; [| done]. apply elem_of_app. right.
    by apply list_elem_of_singleton.
Qed.

Lemma mapComponents_skip (n : string) (ps : list Property)
    (pre post : list Component) (tz : Component) :
  name tz = "VTIMEZONE" →
  mapComponents getRecurrenceIDUTC (Comp n ps (pre ++ tz :: post)%list)
  = mapComponents getRecurrenceIDUTC (Comp n ps (pre ++ post)%list).
Proof.
  intros Hn. unfold mapComponents. simpl. rewrite !foldl_app. simpl.
  by rewrite bool_decide_eq_true_2.
Qed.

(** X10. The matcher does not see the VTIMEZONE components: with or
    without one, anywhere among the subcomponents, a document has the same
    map of components, and as document B it gives the same result of
    [_compareComponents]. *)
Theorem compareComponents_skips_timezones (a : string) (n : string)
    (ps : list Property) (pre post : list Component)
    (tz calendar1 : Component) :
  name tz = "VTIMEZONE" →
  mapComponents getRecurrenceIDUTC (Comp n ps (pre ++ tz :: post)%list)
    = mapComponents getRecurrenceIDUTC (Comp n ps (pre ++ post)%list)
  ∧ _compareComponents getRecurrenceIDUTC deriveInstance a calendar1
      (Comp n ps (pre ++ tz :: post)%list)
    = _compareComponents getRecurrenceIDUTC deriveInstance a calendar1
        (Comp n ps (pre ++ post)%list).
Proof.
  intros Hn. split; [by apply mapComponents_skip |].
  unfold _compareComponents. by rewrite mapComponents_skip.
Qed.

Lemma unchanged_pair_refl (c : Component) : unchanged_pair c c.
Proof.
  split; [done |]. split; [| apply comp_symdiff_refl].
  apply set_eq. intros p. rewrite elem_of_remaining_diff.
  split; [tauto |]. intros Hp. by apply not_elem_of_empty in Hp.
Qed.

(** X11. A component compared with itself, and a document matched against
    itself, give (True, True), for any attendee and whatever
    [deriveInstance] does: nothing is derived and nothing is refused. *)
Theorem compareComponents_same_document (a : string)
    (calendar c : Component) :
  _testComponents a c c = (true, true)
  ∧ _compareComponents getRecurrenceIDUTC deriveInstance a calendar calendar
    = Some (true, true).
Proof.
  split; [apply testComponents_unchanged, unchanged_pair_refl |].
  destruct (compareComponents_spec getRecurrenceIDUTC deriveInstance
              a calendar calendar) as (x & u & Hr & Hxu & _ & Hu).
  assert (Hut : u = true).
  { apply Hu. split; [by unfold keys_subset |].
    split; [by intros key Hk Hn |].
    intros key c1 c2 [Hl2 [Hl1 | [Hl1 _]]].
    - pose proof (eq_trans (eq_sym Hl1) Hl2) as [= ->].
      apply unchanged_pair_refl.
    - pose proof (eq_trans (eq_sym Hl1) Hl2). done. }
  rewrite Hr. destruct x; [by rewrite Hut |].
  rewrite Hxu in Hut; done.
Qed.

End MatcherMap.

Lemma mapComponents_last_wins_witness :
  mapComponents ex_getRecurrenceIDUTC
    (ex_calendar ([ex_event "NEEDS-ACTION" "Office"]
                  ++ ex_event "ACCEPTED" "Home" :: [ex_todo])%list)
    !! ("VEVENT", Some "1", None)
  = Some (ex_event "ACCEPTED" "Home").
Proof.
  apply (mapComponents_last_wins ex_getRecurrenceIDUTC "VCALENDAR" _
           [ex_event "NEEDS-ACTION" "Office"] [ex_todo]
           (ex_event "ACCEPTED" "Home")).
  - done.
  - intros c' ->%list_elem_of_singleton _. done.
Defined.

Lemma compareComponents_skips_timezones_witness :
  _compareComponents ex_getRecurrenceIDUTC ex_deriveInstance user1
    (ex_calendar [ex_master])
    (ex_calendar ([ex_master]
                  ++ ex_timezone "US/Eastern" "FREQ=YEARLY;BYMONTH=11"
                  :: [])%list)
  = Some (true, true).
Proof.
  unfold ex_calendar.
  rewrite (proj2 (compareComponents_skips_timezones ex_getRecurrenceIDUTC
             ex_deriveInstance user1 "VCALENDAR" _ [ex_master] []
             (ex_timezone "US/Eastern" "FREQ=YEARLY;BYMONTH=11")
             (Comp "VCALENDAR" _ [ex_master]) eq_refl)).
  vm_compute. reflexivity.
Defined.

(** ** The public operations: more properties *)

Lemma with_copy_fresh_old (h : gmap loc Component) (v : Component) :
  (fresh (dom (with_copy h v)) ∉ dom h)
  ∧ fresh (dom (with_copy h v)) ≠ fresh (dom h).
Proof.
  pose proof (is_fresh (dom (with_copy h v))) as Hf.
  unfold with_copy in Hf at 2. rewrite dom_insert in Hf.
  rewrite elem_of_union, elem_of_singleton in Hf. tauto.
Qed.

Lemma with_copy_twice_first (h : gmap loc Component) (v1 v2 : Component) :
  with_copy (with_copy h v1) v2 !! fresh (dom h) = Some v1.
Proof.
  rewrite with_copy_old; [apply with_copy_new |].
  apply elem_of_dom. rewrite with_copy_new. eauto.
Qed.

(** X12. After [organizerDiff] the differ no longer refers to the documents
    it was given: [self.calendar1] and [self.calendar2] are two new,
    distinct documents (also when the caller passed one document twice),
    holding the alarm-free copies; [self.attendee] is as it was. *)
Theorem organizerDiff_rebinds (w : world) (d1 d2 : Component) :
  heap w !! calendar1 (self w) = Some d1 →
  heap w !! calendar2 (self w) = Some d2 →
  ∃ b w',
    organizerDiff w = Some (b, w')
    ∧ (calendar1 (self w') ∉ dom (heap w))
    ∧ (calendar2 (self w') ∉ dom (heap w))
    ∧ calendar1 (self w') ≠ calendar2 (self w')
    ∧ heap w' !! calendar1 (self w') = Some (removeAlarms d1)
    ∧ heap w' !! calendar2 (self w') = Some (removeAlarms d2)
    ∧ attendee (self w') = attendee (self w).
Proof.
  intros H1 H2. eexists _, _.
  split; [apply (organizerDiff_run w d1 d2 H1 H2) |]. simpl.
  destruct (with_copy_fresh_old (heap w) (removeAlarms d1)) as [Hf Hne].
  split; [apply is_fresh |]. split; [done |]. split; [done |].
  split; [apply with_copy_twice_first |]. split; [apply with_copy_new | done].
Qed.

Lemma organizerDiff_rebinds_witness :
  let d := ex_calendar [Comp "VEVENT" [prop "UID" "1"] [ex_alarm]] in
  ∃ b w',
    organizerDiff (mkWorld {[ 1%positive := d ]}
                           (mkDiff 1%positive 1%positive None))
    = Some (b, w')
    ∧ calendar1 (self w') ≠ calendar2 (self w')
    ∧ heap w' !! 1%positive = Some d.
Proof.
  intros d.
  assert (Hd : ({[ 1%positive := d ]} : gmap loc Component) !! 1%positive
               = Some d) by apply lookup_singleton_eq.
  destruct (organizerDiff_rebinds
              (mkWorld {[ 1%positive := d ]}
                       (mkDiff 1%positive 1%positive None)) d d Hd Hd)
    as (b & w' & Hrun & _ & _ & Hne & _).
  exists b, w'. split; [exact Hrun |]. split; [exact Hne |].
  revert Hrun. vm_compute. intros [= _ <-]. reflexivity.
Defined.

Section MergeMore.

Context {RID : Type} `{Countable RID}.
Variable getRecurrenceIDUTC : Component → option RID.
Variable deriveInstance : Component → option RID → option Component.
Variable removeXProperties : Component → Component.
Variable attendeesView : list string → Component → Component.
Variable prepareSchedulingMessage : Component → Component.

(** X13. After [attendeeMerge] the differ refers to two new, distinct
    documents holding the normalised copies (the first restricted to the
    attendee), and [self.attendee] is the attendee given. *)
Theorem attendeeMerge_rebinds (a : string) (w : world) (d1 d2 : Component) :
  heap w !! calendar1 (self w) = Some d1 →
  heap w !! calendar2 (self w) = Some d2 →
  ∃ r w',
    attendeeMerge getRecurrenceIDUTC deriveInstance removeXProperties
      attendeesView prepareSchedulingMessage a w = Some (r, w')
    ∧ (calendar1 (self w') ∉ dom (heap w))
    ∧ (calendar2 (self w') ∉ dom (heap w))
    ∧ calendar1 (self w') ≠ calendar2 (self w')
    ∧ heap w' !! calendar1 (self w')
      = Some (prepareSchedulingMessage
                (attendeesView [a] (removeXProperties d1)))
    ∧ heap w' !! calendar2 (self w')
      = Some (prepareSchedulingMessage (removeXProperties d2))
    ∧ attendee (self w') = Some a.
Proof.
  intros H1 H2.
  rewrite (attendeeMerge_run getRecurrenceIDUTC deriveInstance
             removeXProperties attendeesView prepareSchedulingMessage
             a w d1 d2 H1 H2).
  set (v1 := normalized1 _ _ _ a d1). set (v2 := normalized2 _ _ d2).
  destruct (merge_result_total getRecurrenceIDUTC deriveInstance a v1 v2)
    as [r Hr].
  rewrite Hr. simpl. eexists _, _. split; [done |]. simpl.
  destruct (with_copy_fresh_old (heap w) v1) as [Hf Hne].
  split; [apply is_fresh |]. split; [done |]. split; [done |].
  split; [apply with_copy_twice_first |]. split; [apply with_copy_new | done].
Qed.

(** X14. The first boolean of [attendeeMerge] is True exactly when the two
    working copies are equal, or the checks of the VCALENDAR properties and
    of the timezones pass, every key of A is a key of B, every key of B
    alone has an instance derived from A, and every pair of components
    compared passes [_testComponents]. *)
Theorem attendeeMerge_first_boolean (a : string) (w : world)
    (d1 d2 : Component) :
  heap w !! calendar1 (self w) = Some d1 →
  heap w !! calendar2 (self w) = Some d2 →
  ∃ x u w',
    attendeeMerge getRecurrenceIDUTC deriveInstance
      removeXProperties attendeesView prepareSchedulingMessage a w
    = Some ((x, u), w')
    ∧ (x = true ↔
       acceptable_change getRecurrenceIDUTC deriveInstance a
         (normalized1 removeXProperties attendeesView
            prepareSchedulingMessage a d1)
         (normalized2 removeXProperties prepareSchedulingMessage d2)).
Proof.
  intros H1 H2.
  rewrite (attendeeMerge_run getRecurrenceIDUTC deriveInstance
             removeXProperties attendeesView prepareSchedulingMessage
             a w d1 d2 H1 H2).
  unfold merge_result, acceptable_change.
  set (v1 := normalized1 _ _ _ a d1). set (v2 := normalized2 _ _ d2).
  destruct (comp_eqb v1 v2).
  { eexists true, true, _. split; [done |]. split; auto. }
  destruct (_checkVCALENDARProperties v1 v2).
  2:{ eexists false, false, _. split; [done |].
      split; [done |]. intros [? | (? & _)]; done. }
  destruct (_compareVTIMEZONEs v1 v2).
  2:{ eexists false, false, _. split; [done |].
      split; [done |]. intros [? | (_ & ? & _)]; done. }
  simpl.
  destruct (compareComponents_spec getRecurrenceIDUTC deriveInstance
              a v1 v2) as (x & u & Hr & _ & Hx & _).
  rewrite Hr. simpl. eexists x, u, _. split; [done |].
  rewrite Hx. split.
  - intros (? & ? & ?). right. auto.
  - intros [? | (_ & _ & ? & ? & ?)]; [done | auto].
Qed.

(** X15. Unless the two working copies are equal, a difference at the level
    of the document is refused before any component is looked at: a
    top-level property, not named PRODID or CALSCALE, that only one of them
    has, or a timezone identifier that only one of them has, makes
    [attendeeMerge] return (False, False). *)
Theorem attendeeMerge_document_level (a : string) (w : world)
    (d1 d2 : Component) :
  heap w !! calendar1 (self w) = Some d1 →
  heap w !! calendar2 (self w) = Some d2 →
  let v1 := normalized1 removeXProperties attendeesView
              prepareSchedulingMessage a d1 in
  let v2 := normalized2 removeXProperties prepareSchedulingMessage d2 in
  comp_eqb v1 v2 = false →
  (∃ p, (pname p ∉ ignored) ∧ ¬ (p ∈ properties v1 ↔ p ∈ properties v2))
  ∨ (∃ t, ¬ (has_tzid v1 t ↔ has_tzid v2 t)) →
  result_of (attendeeMerge getRecurrenceIDUTC deriveInstance
               removeXProperties attendeesView prepareSchedulingMessage a w)
  = Some (false, false).
Proof.
  intros H1 H2 v1 v2 Hne Hbad.
  rewrite (attendeeMerge_run getRecurrenceIDUTC deriveInstance
             removeXProperties attendeesView prepareSchedulingMessage
             a w d1 d2 H1 H2).
  fold v1 v2. unfold result_of, merge_result. rewrite Hne.
  destruct (_checkVCALENDARProperties v1 v2) eqn:Hc; [| done].
  destruct (_compareVTIMEZONEs v1 v2) eqn:Ht; [| done].
  exfalso. destruct Hbad as [(p & Hp & Hd) | (t & Hd)].
  - apply Hd. by apply (proj1 (checkVCALENDARProperties_spec v1 v2) Hc).
  - apply Hd. by apply (proj1 (compareVTIMEZONEs_spec v1 v2) Ht).
Qed.

(** X16. The two operations work on what the differ refers to, and each
    leaves it referring to its own copies.  So [attendeeMerge] called after
    [organizerDiff] answers for the alarm-free copies of the caller's
    documents, and [organizerDiff] called after [attendeeMerge] compares
    the normalised copies, the first restricted to the attendee, not the
    caller's documents. *)
Theorem operations_in_sequence (a : string) (w w0 : world)
    (d1 d2 : Component) :
  heap w !! calendar1 (self w) = Some d1 →
  heap w !! calendar2 (self w) = Some d2 →
  heap w0 !! calendar1 (self w0) = Some (removeAlarms d1) →
  heap w0 !! calendar2 (self w0) = Some (removeAlarms d2) →
  result_of ((organizerDiff ;;;
              attendeeMerge getRecurrenceIDUTC deriveInstance
                removeXProperties attendeesView prepareSchedulingMessage a) w)
  = result_of (attendeeMerge getRecurrenceIDUTC deriveInstance
                 removeXProperties attendeesView prepareSchedulingMessage
                 a w0)
  ∧ result_of ((attendeeMerge getRecurrenceIDUTC deriveInstance
                  removeXProperties attendeesView prepareSchedulingMessage a
                ;;; organizerDiff) w)
    = Some (comp_eqb
              (removeAlarms (prepareSchedulingMessage
                               (attendeesView [a] (removeXProperties d1))))
              (removeAlarms (prepareSchedulingMessage
                               (removeXProperties d2)))).
Proof.
  intros H1 H2 H01 H02. split.
  - unfold bind at 1. rewrite (organizerDiff_run w d1 d2 H1 H2).
    rewrite (attendeeMerge_run getRecurrenceIDUTC deriveInstance
               removeXProperties attendeesView prepareSchedulingMessage
               a w0 _ _ H01 H02).
    erewrite (attendeeMerge_run getRecurrenceIDUTC deriveInstance
                removeXProperties attendeesView prepareSchedulingMessage
                a _ (removeAlarms d1) (removeAlarms d2)).
    + unfold result_of. by destruct (merge_result _ _ _ _ _).
    + simpl. apply with_copy_twice_first.
    + simpl. apply with_copy_new.
  - unfold bind at 1.
    rewrite (attendeeMerge_run getRecurrenceIDUTC deriveInstance
               removeXProperties attendeesView prepareSchedulingMessage
               a w d1 d2 H1 H2).
    set (v1 := normalized1 _ _ _ a d1). set (v2 := normalized2 _ _ d2).
    destruct (merge_result_total getRecurrenceIDUTC deriveInstance a v1 v2)
      as [r Hr].
    rewrite Hr. simpl.
    erewrite (organizerDiff_run _ v1 v2).
    + done.
    + simpl. apply with_copy_twice_first.
    + simpl. apply with_copy_new.
Qed.

End MergeMore.

Lemma attendeeMerge_rebinds_witness :
  let d := ex_calendar [ex_event "NEEDS-ACTION" "Office"] in
  ∃ r w',
    ex_attendeeMerge user1
      (mkWorld {[ 1%positive := d ]} (mkDiff 1%positive 1%positive None))
    = Some (r, w')
    ∧ calendar1 (self w') ≠ calendar2 (self w')
    ∧ attendee (self w') = Some user1.
Proof.
  intros d.
  assert (Hd : ({[ 1%positive := d ]} : gmap loc Component) !! 1%positive
               = Some d) by apply lookup_singleton_eq.
  destruct (attendeeMerge_rebinds ex_getRecurrenceIDUTC ex_deriveInstance
              ex_removeXProperties ex_attendeesView
              ex_prepareSchedulingMessage user1
              (mkWorld {[ 1%positive := d ]}
                       (mkDiff 1%positive 1%positive None)) d d Hd Hd)
    as (r & w' & Hrun & _ & _ & Hne & _ & _ & Hatt).
  exists r, w'. split; [exact Hrun |]. split; [exact Hne | exact Hatt].
Defined.

Lemma attendeeMerge_first_boolean_witness :
  let d1 := ex_calendar [ex_event "NEEDS-ACTION" "Office"; ex_todo] in
  let d2 := ex_calendar [ex_event "ACCEPTED" "Office"] in
  ∃ u w', ex_attendeeMerge user1 (ex_world d1 d2) = Some ((false, u), w').
Proof.
  intros d1 d2.
  destruct (attendeeMerge_first_boolean ex_getRecurrenceIDUTC
              ex_deriveInstance ex_removeXProperties ex_attendeesView
              ex_prepareSchedulingMessage user1 (ex_world d1 d2) d1 d2
              eq_refl eq_refl)
    as (x & u & w' & Hrun & Hx).
  exists u, w'. destruct x; [| exact Hrun].
  exfalso. destruct (proj1 Hx eq_refl) as [He | (_ & _ & Hk & _)].
  - revert He. vm_compute. discriminate.
  - revert Hk. unfold keys_subset. by_evaluation.
Defined.

Lemma attendeeMerge_document_level_witness :
  let d1 := ex_calendar [ex_master] in
  let d2 := Comp "VCALENDAR" [prop "VERSION" "2.0"; prop "METHOD" "REQUEST"]
              [ex_master] in
  result_of (ex_attendeeMerge user1 (ex_world d1 d2)) = Some (false, false).
Proof.
  intros d1 d2. unfold ex_attendeeMerge.
  refine (attendeeMerge_document_level ex_getRecurrenceIDUTC
            ex_deriveInstance ex_removeXProperties ex_attendeesView
            ex_prepareSchedulingMessage user1 (ex_world d1 d2) d1 d2
            eq_refl eq_refl _ _).
  - vm_compute. reflexivity.
  - left. exists (prop "METHOD" "REQUEST"). split; [by_evaluation |].
    intros [_ Hin].
    assert (Hno : prop "METHOD" "REQUEST"
                  ∉ properties
                      (normalized1 ex_removeXProperties ex_attendeesView
                         ex_prepareSchedulingMessage user1 d1))
      by by_evaluation.
    apply Hno, Hin. by_evaluation.
Defined.

Lemma operations_in_sequence_witness :
  let d1 := ex_calendar [Comp "VEVENT" [prop "UID" "1"] [ex_alarm]] in
  let d2 := ex_calendar [Comp "VEVENT" [prop "UID" "1"] []] in
  result_of ((organizerDiff ;;; ex_attendeeMerge user1) (ex_world d1 d2))
  = Some (true, true).
Proof.
  intros d1 d2. unfold ex_attendeeMerge.
  rewrite (proj1 (operations_in_sequence ex_getRecurrenceIDUTC
             ex_deriveInstance ex_removeXProperties ex_attendeesView
             ex_prepareSchedulingMessage user1 (ex_world d1 d2)
             (ex_world (removeAlarms d1) (removeAlarms d2)) d1 d2
             eq_refl eq_refl eq_refl eq_refl)).
  vm_compute. reflexivity.
Defined.

(** ** Iteration order *)

(** X17. The loop of [_testComponents] over the property differences gives
    the same outcome in whatever order, and however often, the differences
    are visited: the order in which Python iterates over the set does not
    decide the result. *)
Theorem test_loop_order (a : string) (todo todo' : list Property)
    (D : gset Property) :
  (∀ p, p ∈ todo ↔ p ∈ todo') →
  test_loop a todo D = test_loop a todo' D.
Proof.
  intros Hsame.
  destruct (test_loop a todo D) as [D1|] eqn:H1;
    destruct (test_loop a todo' D) as [D2|] eqn:H2; try done.
  - f_equal. apply set_eq. intros p.
    rewrite (test_loop_Some _ _ _ _ H1 p), (test_loop_Some _ _ _ _ H2 p).
    by rewrite Hsame.
  - apply test_loop_None, Exists_exists in H2 as (p & Hp & Hbad).
    assert (test_loop a todo D = None); [| congruence].
    apply test_loop_None, Exists_exists. exists p. by rewrite Hsame.
  - apply test_loop_None, Exists_exists in H1 as (p & Hp & Hbad).
    assert (test_loop a todo' D = None); [| congruence].
    apply test_loop_None, Exists_exists. exists p. by rewrite <- Hsame.
Qed.

Lemma test_loop_order_witness :
  let D : gset Property :=
    {[ prop "SEQUENCE" "2"; mkProperty "ATTENDEE" user1 (partstat "ACCEPTED") ]} in
  test_loop user1 (reverse (elements D)) D
  = Some {[ mkProperty "ATTENDEE" user1 (partstat "ACCEPTED") ]}.
Proof.
  intros D.
  rewrite (test_loop_order user1 (reverse (elements D)) (elements D) D).
  - by_evaluation.
  - intros p. apply elem_of_reverse.
Defined.

Section LoopOrder.

Context {RID : Type} `{Countable RID}.
Variable deriveInstance : Component → option RID → option Component.

(** X18. Neither loop of [_compareComponents] depends on the order in which
    the dictionary or the set is iterated: over the same pairs, and over
    the same keys, all of them keys of map2, each loop ends the same way
    with the same flag. *)
Theorem matcher_loops_order (a : string) (calendar1 : Component)
    (map2 : gmap (@Key RID) Component)
    (items items' : list (@Key RID * Component))
    (keys keys' : list (@Key RID)) (au : bool) :
  (∀ k v, (k, v) ∈ items → is_Some (map2 !! k)) →
  (∀ k, k ∈ keys → is_Some (map2 !! k)) →
  (∀ kv, kv ∈ items ↔ kv ∈ items') →
  (∀ k, k ∈ keys ↔ k ∈ keys') →
  matched_loop a map2 items au = matched_loop a map2 items' au
  ∧ derived_loop deriveInstance a calendar1 map2 keys au
    = derived_loop deriveInstance a calendar1 map2 keys' au.
Proof.
  intros Hl1 Hl2 Hi Hk.
  assert (Hl1' : ∀ k v, (k, v) ∈ items' → is_Some (map2 !! k)).
  { intros k v Hin. apply (Hl1 k v). by apply Hi. }
  assert (Hl2' : ∀ k, k ∈ keys' → is_Some (map2 !! k)).
  { intros k Hin. apply Hl2. by apply Hk. }
  split.
  - destruct (matched_loop_cases a map2 items au Hl1)
      as [(Hr & k & c1 & c2 & Hin & Hl & Hf) | (b & Hr & Hall & Hb)];
    destruct (matched_loop_cases a map2 items' au Hl1')
      as [(Hr' & k' & c1' & c2' & Hin' & Hl' & Hf')
         | (b' & Hr' & Hall' & Hb')];
    rewrite Hr, Hr'; try done.
    + apply Hi in Hin. rewrite (Hall' _ _ _ Hin Hl) in Hf. done.
    + apply Hi in Hin'. rewrite (Hall _ _ _ Hin' Hl') in Hf'. done.
    + do 2 f_equal. apply eq_true_iff_eq. rewrite Hb, Hb'.
      split; intros Hs k c1 c2 Hin; apply Hs; by apply Hi.
  - destruct (derived_loop_cases deriveInstance a calendar1 map2 keys au Hl2)
      as [(Hr & k & Hin & Hf) | (b & Hr & Hall & Hb)];
    destruct (derived_loop_cases deriveInstance a calendar1 map2 keys' au Hl2')
      as [(Hr' & k' & Hin' & Hf') | (b' & Hr' & Hall' & Hb')];
    rewrite Hr, Hr'; try done.
    + apply Hk in Hin. destruct (Hall' k Hin) as (c1 & c2 & Hd & Hl & Ht).
      destruct Hf as [Hnone | (c1' & c2' & Hd' & Hl' & Hf)].
      * pose proof (eq_trans (eq_sym Hnone) Hd). done.
      * pose proof (eq_trans (eq_sym Hd) Hd') as [= <-].
        pose proof (eq_trans (eq_sym Hl) Hl') as [= <-]. congruence.
    + apply Hk in Hin'. destruct (Hall k' Hin') as (c1 & c2 & Hd & Hl & Ht).
      destruct Hf' as [Hnone | (c1' & c2' & Hd' & Hl' & Hf')].
      * pose proof (eq_trans (eq_sym Hnone) Hd). done.
      * pose proof (eq_trans (eq_sym Hd) Hd') as [= <-].
        pose proof (eq_trans (eq_sym Hl) Hl') as [= <-]. congruence.
    + do 2 f_equal. apply eq_true_iff_eq. rewrite Hb, Hb'.
      split; intros Hs k c1 c2 Hin; apply Hs; by apply Hk.
Qed.

End LoopOrder.

Lemma matcher_loops_order_witness :
  let calendar1 := ex_calendar [ex_master; ex_todo] in
  let map2 := mapComponents ex_getRecurrenceIDUTC
                (ex_calendar [ex_master; ex_todo;
                              ex_override "20080603T120000Z" "ACCEPTED"]) in
  let items := map_to_list (mapComponents ex_getRecurrenceIDUTC calendar1) in
  matched_loop user1 map2 (reverse items) true
  = matched_loop user1 map2 items true.
Proof.
  intros calendar1 map2 items.
  refine (proj1 (matcher_loops_order ex_deriveInstance user1 calendar1 map2
                   (reverse items) items [] [] true _ _ _ _)).
  - intros k v Hin%elem_of_reverse. revert k v Hin.
    assert (Hall : Forall (fun kv => is_Some (map2 !! kv.1)) items)
      by by_evaluation.
    rewrite Forall_forall in Hall. intros k v Hin. apply (Hall (k, v) Hin).
  - intros k Hk. by apply elem_of_nil in Hk.
  - intros kv. apply elem_of_reverse.
  - done.
Defined.

(** ** The organizer's comparison *)

(** X19. [organizerDiff] answers True for two documents with the same
    content, and its answer does not depend on which of the two the differ
    holds first. *)
Theorem organizerDiff_same_and_swapped (w : world) (d1 d2 : Component) :
  heap w !! calendar1 (self w) = Some d1 →
  heap w !! calendar2 (self w) = Some d2 →
  (d1 = d2 → result_of (organizerDiff w) = Some true)
  ∧ result_of (organizerDiff
                 (mkWorld (heap w)
                    (mkDiff (calendar2 (self w)) (calendar1 (self w))
                            (attendee (self w)))))
    = result_of (organizerDiff w).
Proof.
  intros H1 H2. unfold result_of.
  rewrite (organizerDiff_run w d1 d2 H1 H2).
  rewrite (organizerDiff_run
             (mkWorld (heap w)
                (mkDiff (calendar2 (self w)) (calendar1 (self w))
                        (attendee (self w)))) d2 d1 H2 H1). simpl.
  split.
  - intros ->. by rewrite comp_eqb_refl.
  - by rewrite comp_eqb_sym.
Qed.

Lemma organizerDiff_same_and_swapped_witness :
  let d := ex_calendar [ex_event "NEEDS-ACTION" "Office"] in
  result_of (organizerDiff (ex_world d d)) = Some true.
Proof.
  intros d.
  exact (proj1 (organizerDiff_same_and_swapped (ex_world d d) d d
                  eq_refl eq_refl) eq_refl).
Defined.
